(** * WireGuard split-tunnel action: route resolution and application

    A shallow embedding of [src/index.ts] (the action's entry point), of
    the resolver of its two earlier variants and of the route functions
    of the earliest one, followed by the properties of the design
    document that concern them and by further properties of the code.

    Conventions of the embedding
    - a JavaScript string is the list of its UTF-16 code units;
    - an [async] function is a function from the log of everything that
      happened so far to a completion and the extended log;
    - everything outside the process (child processes, the resolver, the
      file system, the action's inputs) is a field of [World]; a field
      that stands for an effect also receives the log, so that the same
      request may be answered differently the second time. *)

From Stdlib Require Import ZArith NArith Lia Bool String Ascii.
From stdpp Require Import base list gmap.

Local Open Scope N_scope.

(* ===================================================================== *)
(** ** JavaScript strings *)
(* ===================================================================== *)

Module Js.

(** One UTF-16 code unit. *)
Definition unit16 := N.

(** A string value. *)
Definition str := list N.

(** A literal of the source, written as a Rocq string (ASCII only). *)
Definition lit (s : string) : str :=
  List.map N_of_ascii (list_ascii_of_string s).

(** [a + b] on strings and template literals. *)
Definition cat (a b : str) : str := (a ++ b)%list.

(** Truthiness of a string: only the empty string is falsy. *)
Definition truthy (s : str) : bool :=
  match s with [] => false | _ :: _ => true end.

(** [a || b] on strings. *)
Definition or_else (a b : str) : str := if truthy a then a else b.

(** [a === b] on strings. *)
Definition eqb (a b : str) : bool := bool_decide (a = b).

(** ECMAScript WhiteSpace and LineTerminator code points, the ones
    [String.prototype.trim] strips: TAB, LF, VT, FF, CR, SP, NBSP,
    U+1680, U+2000..U+200A, LS, PS, U+202F, U+205F, U+3000, BOM. *)
Definition isWhiteSpace (c : N) : bool :=
  ((9 <=? c) && (c <=? 13)) || (c =? 32) || (c =? 160) || (c =? 5760)
  || ((8192 <=? c) && (c <=? 8202)) || (c =? 8232) || (c =? 8233)
  || (c =? 8239) || (c =? 8287) || (c =? 12288) || (c =? 65279).

(** [s.trimStart()]. *)
Fixpoint trimStart (s : str) : str :=
  match s with
  | [] => []
  | c :: s' => if isWhiteSpace c then trimStart s' else s
  end.

(** [s.trimEnd()]. *)
Definition trimEnd (s : str) : str := rev (trimStart (rev s)).

(** [s.trim()]. *)
Definition trim (s : str) : str := trimEnd (trimStart s).

(** [s.includes(c)] for a one-unit needle. *)
Definition includes (c : N) (s : str) : bool := existsb (N.eqb c) s.

(** [s.split(sep)] for a one-unit separator: always at least one field,
    the empty string gives one empty field. *)
Fixpoint split (sep : N) (s : str) : list str :=
  match s with
  | [] => [[]]
  | c :: s' =>
      if c =? sep then [] :: split sep s'
      else match split sep s' with
           | fld :: rest => (c :: fld) :: rest
           | [] => [[c]]
           end
  end.

(** [fields.join(sep)] for a one-unit separator. *)
Fixpoint join (sep : N) (fields : list str) : str :=
  match fields with
  | [] => []
  | [f] => f
  | f :: rest => (f ++ sep :: join sep rest)%list
  end.

(** [s.startsWith(p)]. *)
Fixpoint startsWith (p s : str) : bool :=
  match p, s with
  | [], _ => true
  | _ :: _, [] => false
  | a :: p', b :: s' => (a =? b) && startsWith p' s'
  end.

(** [String(n)] for a non-negative integer. *)
Fixpoint digits (d : Decimal.uint) : str :=
  match d with
  | Decimal.Nil => []
  | Decimal.D0 d => 48 :: digits d
  | Decimal.D1 d => 49 :: digits d
  | Decimal.D2 d => 50 :: digits d
  | Decimal.D3 d => 51 :: digits d
  | Decimal.D4 d => 52 :: digits d
  | Decimal.D5 d => 53 :: digits d
  | Decimal.D6 d => 54 :: digits d
  | Decimal.D7 d => 55 :: digits d
  | Decimal.D8 d => 56 :: digits d
  | Decimal.D9 d => 57 :: digits d
  end.

Definition ofNat (n : nat) : str := digits (Nat.to_uint n).

Definition comma : N := 44.
Definition colon : N := 58.
Definition newline : N := 10.

End Js.

Abbreviation jsstring := Js.str.
Notation "$ s" := (Js.lit s) (at level 9, s at level 0, format "$ s").
Infix "+++" := Js.cat (at level 60, right associativity).

(* ===================================================================== *)
(** ** Input Normalizer *)
(* ===================================================================== *)

(** [parseInputList], index.ts:220.
    [input.split(",").map(item => item.trim()).filter(item => item)] *)
Definition parseInputList (input : jsstring) : list jsstring :=
  List.filter Js.truthy (List.map Js.trim (Js.split Js.comma input)).

(* ===================================================================== *)
(** ** Errors, completions and the log *)
(* ===================================================================== *)

(** A thrown [Error]: its [message] and, for resolver errors, its [code]
    ([undefined] is [None]). *)
Record JsError := mkError { code : option jsstring; message : jsstring }.

(** [new Error(msg)]. *)
Definition Error (msg : jsstring) : JsError := mkError None msg.

(** [`${err?.message || err}`]: an [Error] with an empty message prints
    as its name. *)
Definition describe (err : JsError) : jsstring :=
  Js.or_else (message err) $"Error".

(** How a promise settles. *)
Inductive Settled (A : Type) : Type :=
| Fulfilled (a : A)
| Rejected (e : JsError).
Arguments Fulfilled {A} a.
Arguments Rejected {A} e.

(** A promise together with the time it takes: it settles [ms]
    milliseconds after it was created, or never. *)
Inductive Timed (A : Type) : Type :=
| After (ms : N) (a : A)
| Never.
Arguments After {A} ms a.
Arguments Never {A}.

(** How a child process ends: with an exit code, or it could not be
    started at all. *)
Inductive ProcEnd : Type :=
| Exited (exitCode : Z)
| SpawnError (e : JsError).

(** Options of [exec.exec] that the source sets. *)
Record ExecOptions := mkOpts { ignoreReturnCode : bool; silent : bool }.
Definition noOptions : ExecOptions := mkOpts false false.

Inductive Family : Type := IPv4 | IPv6.

(** What one invocation does, as seen from outside. *)
Inductive Event : Type :=
| Info (msg : jsstring)                       (* core.info *)
| Warning (msg : jsstring)                    (* core.warning *)
| SetFailed (msg : jsstring)                  (* core.setFailed *)
| Exec (tool : jsstring) (args : list jsstring) (opts : ExecOptions)
                                              (* exec.exec, exec.getExecOutput *)
| Resolve (family : Family) (domain : jsstring)
                                              (* dns.resolve4, dns.resolve6 *)
| Mkdtemp (pfx : jsstring)                    (* fs.mkdtemp *)
| WriteFile (file content : jsstring) (mode : N)
                                              (* fs.writeFile *)
| MkdirP (dir : jsstring)                     (* io.mkdirP *)
| Waited (ms : N).                            (* an await that a timer
                                                 bounds, or the timer alone:
                                                 the time it took *)

(** The log, newest event first. *)
Definition Log := list Event.

(** How the body of an [async] function completes. [Hangs]: it awaits a
    promise that never settles. *)
Inductive Completion (A : Type) : Type :=
| Returns (a : A)
| Throws (e : JsError)
| Hangs.
Arguments Returns {A} a.
Arguments Throws {A} e.
Arguments Hangs {A}.

Definition Async (A : Type) : Type := Log -> Completion A * Log.

Definition ret {A} (a : A) : Async A := fun log => (Returns a, log).

Definition throw {A} (e : JsError) : Async A := fun log => (Throws e, log).

Definition hang {A} : Async A := fun log => (Hangs, log).

Definition bind {A B} (m : Async A) (k : A -> Async B) : Async B :=
  fun log =>
    match m log with
    | (Returns a, log') => k a log'
    | (Throws e, log') => (Throws e, log')
    | (Hangs, log') => (Hangs, log')
    end.

(** [try { body } catch (err) { handler }]. *)
Definition try_catch {A} (body : Async A) (handler : JsError -> Async A)
  : Async A :=
  fun log =>
    match body log with
    | (Throws e, log') => handler e log'
    | other => other
    end.

Definition emit (e : Event) : Async unit := fun log => (Returns tt, e :: log).

(** The log, read without changing it. *)
Definition history : Async Log := fun log => (Returns log, log).

Declare Scope async_scope.
Delimit Scope async_scope with async.
Notation "x <- m ;; k" := (bind m (fun x => k))
  (at level 100, m at next level, right associativity) : async_scope.
Notation "m ;; k" := (bind m (fun _ => k))
  (at level 100, right associativity) : async_scope.
Local Open Scope async_scope.

(** [for (const x of xs) { body }], the locals that the body updates
    being threaded as [s]. *)
Fixpoint for_of {A S} (xs : list A) (body : A -> S -> Async S) (s : S)
  : Async S :=
  match xs with
  | [] => ret s
  | x :: xs' => s' <- body x s ;; for_of xs' body s'
  end.

(** [await promise], for a promise whose duration the world gives. *)
Definition await {A} (p : Timed (Settled A)) : Async A :=
  match p with
  | After ms (Fulfilled a) => emit (Waited ms) ;; ret a
  | After ms (Rejected e) => emit (Waited ms) ;; throw e
  | Never => hang
  end.

Definition info (msg : jsstring) : Async unit := emit (Info msg).
Definition warning (msg : jsstring) : Async unit := emit (Warning msg).
Definition setFailed (msg : jsstring) : Async unit := emit (SetFailed msg).

(* ===================================================================== *)
(** ** The world outside the process *)
(* ===================================================================== *)

(** Everything the action reads from or asks of its host.

    A child process that the source awaits directly is taken to end (the
    source makes no provision for one that does not); where the source
    races a promise against a timer, the world also says how long the
    promise takes. *)
Record World := mkWorld {
  (** [process.platform] *)
  platform : jsstring;
  (** the inputs of the step by name, as [core.getInput] finds them in
      the environment; an input that is not given is absent *)
  inputs : gmap (list N) (list N);
  (** how the command [tool args] ends when started after [log] *)
  proc : Log -> jsstring -> list jsstring -> ProcEnd;
  (** the same, with the running time, for a command that the source
      races against a timer *)
  procTimed : Log -> jsstring -> list jsstring -> Timed ProcEnd;
  (** the [Error] with which [exec] rejects when [tool] exits with a
      non-zero code that is not ignored *)
  exitFailure : jsstring -> Z -> JsError;
  (** [dns.resolve4(domain)] and [dns.resolve6(domain)] *)
  resolve4 : Log -> jsstring -> Timed (Settled (list jsstring));
  resolve6 : Log -> jsstring -> Timed (Settled (list jsstring));
  (** [fs.mkdtemp], [fs.writeFile], [io.mkdirP] *)
  mkdtemp : Log -> jsstring -> Settled jsstring;
  writeFile : Log -> jsstring -> jsstring -> N -> Settled unit;
  mkdirP : Log -> jsstring -> Settled unit;
  (** pure library functions: [Buffer.from(s, "base64").toString("utf8")],
      [s.toLowerCase()], [os.tmpdir()], [path.join(a, b)] *)
  base64ToUtf8 : jsstring -> jsstring;
  toLowerCase : jsstring -> jsstring;
  tmpdir : jsstring;
  pathJoin : jsstring -> jsstring -> jsstring
}.

(** The same world with other running times and endings for the raced
    commands. *)
Definition with_procTimed (w : World)
    (p : Log -> jsstring -> list jsstring -> Timed ProcEnd) : World :=
  mkWorld (platform w) (inputs w) (proc w) p (exitFailure w)
          (resolve4 w) (resolve6 w) (mkdtemp w) (writeFile w) (mkdirP w)
          (base64ToUtf8 w) (toLowerCase w) (tmpdir w) (pathJoin w).

(** The same world with other answers of the resolver. *)
Definition with_resolvers (w : World)
    (dns4 dns6 : Log -> jsstring -> Timed (Settled (list jsstring))) : World :=
  mkWorld (platform w) (inputs w) (proc w) (procTimed w) (exitFailure w)
          dns4 dns6 (mkdtemp w) (writeFile w) (mkdirP w)
          (base64ToUtf8 w) (toLowerCase w) (tmpdir w) (pathJoin w).

(** [await Promise.race([promise, timer])] where the timer fulfils with
    [null] after [timeoutMs]: index.ts:26, the helper of
    [resolveDomainIPs]. The promise wins when it settles before the timer
    fires. *)
Definition resolveWithTimeout {T} (promise : Timed (Settled T))
    (timeoutMs : N) : Async (option T) :=
  match promise with
  | After ms settled =>
      if ms <? timeoutMs then
        emit (Waited ms) ;;
        match settled with
        | Fulfilled v => ret (Some v)
        | Rejected e => throw e
        end
      else emit (Waited timeoutMs) ;; ret None
  | Never => emit (Waited timeoutMs) ;; ret None
  end.

(** [await Promise.race([promise, timer])] where the timer rejects with
    [err] after [timeoutMs]: index.ts:123-128. *)
Definition raceOrReject {T} (promise : Timed (Settled T))
    (timeoutMs : N) (err : JsError) : Async T :=
  match promise with
  | After ms settled =>
      if ms <? timeoutMs then
        emit (Waited ms) ;;
        match settled with
        | Fulfilled v => ret v
        | Rejected e => throw e
        end
      else emit (Waited timeoutMs) ;; throw err
  | Never => emit (Waited timeoutMs) ;; throw err
  end.

(** [err.code !== c]. *)
Definition code_differs (err : JsError) (c : jsstring) : bool :=
  match code err with
  | Some c' => negb (Js.eqb c' c)
  | None => true
  end.

(** What [exec.exec] makes of the end of the process. *)
Definition settle_exec (w : World) (tool : jsstring) (opts : ExecOptions)
    (p : ProcEnd) : Settled Z :=
  match p with
  | Exited c =>
      if (c =? 0)%Z || ignoreReturnCode opts then Fulfilled c
      else Rejected (exitFailure w tool c)
  | SpawnError e => Rejected e
  end.

Definition timed_map {A B} (f : A -> B) (t : Timed A) : Timed B :=
  match t with
  | After ms a => After ms (f a)
  | Never => Never
  end.

(* ===================================================================== *)
(** ** Library calls *)
(* ===================================================================== *)

Section Library.
Variable w : World.

(** [await exec.exec(tool, args, opts)]: resolves with the exit code. *)
Definition exec_exec (tool : jsstring) (args : list jsstring)
    (opts : ExecOptions) : Async Z :=
  log <- history ;;
  emit (Exec tool args opts) ;;
  match settle_exec w tool opts (proc w log tool args) with
  | Fulfilled c => ret c
  | Rejected e => throw e
  end.

(** [await exec.getExecOutput(tool, args, opts)], of which the source
    reads [exitCode] only. *)
Definition exec_getExecOutput (tool : jsstring) (args : list jsstring)
    (opts : ExecOptions) : Async Z :=
  exec_exec tool args opts.

(** [exec.exec(tool, args, opts)] not yet awaited: the promise. *)
Definition exec_start (tool : jsstring) (args : list jsstring)
    (opts : ExecOptions) : Async (Timed (Settled Z)) :=
  log <- history ;;
  emit (Exec tool args opts) ;;
  ret (timed_map (settle_exec w tool opts) (procTimed w log tool args)).

(** [dns.resolve4(domain)] and [dns.resolve6(domain)], not yet awaited. *)
Definition dns_resolve4 (domain : jsstring)
  : Async (Timed (Settled (list jsstring))) :=
  log <- history ;;
  emit (Resolve IPv4 domain) ;;
  ret (resolve4 w log domain).

Definition dns_resolve6 (domain : jsstring)
  : Async (Timed (Settled (list jsstring))) :=
  log <- history ;;
  emit (Resolve IPv6 domain) ;;
  ret (resolve6 w log domain).

(** [core.getInput(name, {required})] of @actions/core: the value from
    the environment, refused when required and empty, trimmed
    otherwise. *)
Definition getInput (name : jsstring) (required : bool) : Async jsstring :=
  let val := default [] (inputs w !! name) in
  if required && negb (Js.truthy val) then
    throw (Error ($"Input required and not supplied: " +++ name))
  else ret (Js.trim val).

Definition settle {A} (s : Settled A) : Async A :=
  match s with
  | Fulfilled a => ret a
  | Rejected e => throw e
  end.

Definition fs_mkdtemp (pfx : jsstring) : Async jsstring :=
  log <- history ;; emit (Mkdtemp pfx) ;; settle (mkdtemp w log pfx).

Definition fs_writeFile (file content : jsstring) (mode : N) : Async unit :=
  log <- history ;;
  emit (WriteFile file content mode) ;;
  settle (writeFile w log file content mode).

Definition io_mkdirP (dir : jsstring) : Async unit :=
  log <- history ;; emit (MkdirP dir) ;; settle (mkdirP w log dir).

(** [await new Promise(resolve => setTimeout(resolve, ms))]. *)
Definition sleep (ms : N) : Async unit := emit (Waited ms).

End Library.

(* ===================================================================== *)
(** ** src/index.ts *)
(* ===================================================================== *)

Module Index.
Section Program.
Variable w : World.

(** index.ts:9 *)
Definition checkInterfaceExists (iface : jsstring) : Async bool :=
  exitCode <- exec_getExecOutput w $"ip" [$"link"; $"show"; iface]
                (mkOpts true true) ;;
  ret (exitCode =? 0)%Z.

(** index.ts:14 *)
Definition addSingleRoute (ip iface : jsstring) : Async unit :=
  let isIpv6 := Js.includes Js.colon ip in
  let cidr := if isIpv6 then ip +++ $"/128" else ip +++ $"/32" in
  let ipCommand := if isIpv6 then [$"ip"; $"-6"] else [$"ip"] in
  exec_exec w $"sudo" (ipCommand ++ [$"route"; $"add"; cidr; $"dev"; iface])
    noOptions ;;
  ret tt.

(** index.ts:22. [ips] is the array the function fills; each [try] block
    yields it as it stands when the block is left. *)
Definition resolveDomainIPs (domain : jsstring) : Async (list jsstring) :=
  let ips : list jsstring := [] in
  ips <- try_catch
    (promise <- dns_resolve4 w domain ;;
     ipv4Addresses <- resolveWithTimeout promise 5000 ;;
     match ipv4Addresses with
     | Some addrs => ret (ips ++ addrs)
     | None =>
         warning ($"IPv4 resolution for " +++ domain +++ $" timed out") ;;
         ret ips
     end)
    (fun err =>
       if code_differs err $"ENOTFOUND" && code_differs err $"ENODATA" then
         warning ($"Failed to resolve IPv4 for " +++ domain +++ $": "
                  +++ message err) ;;
         ret ips
       else ret ips) ;;
  ips <- try_catch
    (promise <- dns_resolve6 w domain ;;
     ipv6Addresses <- resolveWithTimeout promise 5000 ;;
     match ipv6Addresses with
     | Some addrs => ret (ips ++ addrs)
     | None =>
         warning ($"IPv6 resolution for " +++ domain +++ $" timed out") ;;
         ret ips
     end)
    (fun err =>
       if code_differs err $"ENOTFOUND" && code_differs err $"ENODATA" then
         warning ($"Failed to resolve IPv6 for " +++ domain +++ $": "
                  +++ message err) ;;
         ret ips
       else ret ips) ;;
  ret ips.

(** The locals of [addRoutesForDomains] that its loops update. *)
Record DomainLoop := mkDomainLoop { routeCount : nat; allIPs : list jsstring }.

(** index.ts:75-84, the body of the inner loop. *)
Definition addDomainRoute (domain iface ip : jsstring) (st : DomainLoop)
  : Async DomainLoop :=
  try_catch
    (info ($"Adding route for " +++ domain +++ $" (" +++ ip +++ $") via "
           +++ iface) ;;
     addSingleRoute ip iface ;;
     ret (mkDomainLoop (S (routeCount st)) (allIPs st ++ [ip])))
    (fun err =>
       warning ($"Failed to add route for " +++ ip +++ $": "
                +++ message err) ;;
       ret st).

(** index.ts:64 *)
Definition addRoutesForDomains (domains : list jsstring) (iface : jsstring)
  : Async (list jsstring) :=
  if (length domains =? 0)%nat then ret []
  else
    info ($"Adding routes for " +++ Js.ofNat (length domains)
          +++ $" domain(s)...") ;;
    st <- for_of domains
            (fun domain st =>
               info ($"Resolving " +++ domain +++ $"...") ;;
               ips <- resolveDomainIPs domain ;;
               for_of ips (addDomainRoute domain iface) st)
            (mkDomainLoop 0 []) ;;
    info ($"Added " +++ Js.ofNat (routeCount st)
          +++ $" route(s) for domains.") ;;
    ret (allIPs st).

(** index.ts:98-105, the body of the loop. *)
Definition addIPRoute (iface ip : jsstring) (routeCount : nat) : Async nat :=
  try_catch
    (let cidr := if Js.includes Js.colon ip then ip +++ $"/128"
                 else ip +++ $"/32" in
     info ($"Adding route for " +++ cidr +++ $" via " +++ iface) ;;
     addSingleRoute ip iface ;;
     ret (S routeCount))
    (fun err =>
       warning ($"Failed to add route for " +++ ip +++ $": "
                +++ message err) ;;
       ret routeCount).

(** index.ts:91 *)
Definition addRoutesForIPs (ips : list jsstring) (iface : jsstring)
  : Async unit :=
  if (length ips =? 0)%nat then ret tt
  else
    info ($"Adding routes for " +++ Js.ofNat (length ips)
          +++ $" IP address(es)...") ;;
    routeCount <- for_of ips (addIPRoute iface) 0%nat ;;
    info ($"Added " +++ Js.ofNat routeCount +++ $" route(s) for IPs.").

(** index.ts:118-131, the body of the loop. *)
Definition pingOne (ip : jsstring) (_ : unit) : Async unit :=
  try_catch
    (info ($"Pinging " +++ ip +++ $"...") ;;
     let pingCmd := if Js.includes Js.colon ip then $"ping6" else $"ping" in
     pingPromise <- exec_start w pingCmd [$"-c"; $"2"; $"-W"; $"3"; ip]
                      (mkOpts true false) ;;
     raceOrReject pingPromise 10000 (Error $"Ping timeout") ;;
     ret tt)
    (fun err =>
       warning ($"Ping test for " +++ ip +++ $" failed or timed out: "
                +++ message err)).

(** index.ts:112 *)
Definition testConnectivity (ips : list jsstring) : Async unit :=
  if (length ips =? 0)%nat then ret tt
  else
    info $"Testing connectivity to routed IPs..." ;;
    for_of (take 3 ips) pingOne tt.

(** index.ts:135 *)
Definition addRoutes (domains ips : list jsstring) (iface : jsstring)
  : Async (list jsstring) :=
  domainIPs <- addRoutesForDomains domains iface ;;
  addRoutesForIPs ips iface ;;
  ret (domainIPs ++ ips).

(** index.ts:141 *)
Definition installWireGuard : Async unit :=
  info $"Installing WireGuard..." ;;
  exec_exec w $"sudo" [$"apt-get"; $"install"; $"-y"; $"wireguard"]
    noOptions ;;
  ret tt.

(** index.ts:146 *)
Definition setupWireGuardConfig (config iface : jsstring) (stripDns : bool)
  : Async unit :=
  let configContent := base64ToUtf8 w config in
  configContent <-
    (if stripDns then
       info $"Stripping DNS configuration to preserve system DNS..." ;;
       ret (Js.join Js.newline
              (List.filter
                 (fun line =>
                    negb (Js.startsWith $"dns"
                            (toLowerCase w (Js.trim line))))
                 (Js.split Js.newline configContent)))
     else ret configContent) ;;
  tmpDir <- fs_mkdtemp w (pathJoin w (tmpdir w) $"wg-") ;;
  let tmpConf := pathJoin w tmpDir (iface +++ $".conf") in
  fs_writeFile w tmpConf configContent 384 ;;
  let etcDir := $"/etc/wireguard" in
  io_mkdirP w etcDir ;;
  let etcConf := pathJoin w etcDir (iface +++ $".conf") in
  exec_exec w $"sudo" [$"cp"; tmpConf; etcConf] noOptions ;;
  exec_exec w $"sudo" [$"chmod"; $"600"; etcConf] noOptions ;;
  ret tt.

(** index.ts:172 *)
Definition startWireGuardInterface (iface : jsstring) : Async unit :=
  info ($"Starting WireGuard interface '" +++ iface +++ $"'...") ;;
  exec_exec w $"sudo" [$"wg-quick"; $"up"; iface] noOptions ;;
  info ($"WireGuard interface '" +++ iface +++ $"' is up.") ;;
  info $"Waiting for tunnel to stabilize..." ;;
  sleep 5000.

(** index.ts:182 *)
Definition setupWireGuard (config iface : jsstring) (stripDns : bool)
  : Async unit :=
  installWireGuard ;;
  setupWireGuardConfig config iface stripDns ;;
  startWireGuardInterface iface.

(** index.ts:188 *)
Definition handleAddRouteMode (domains ips : list jsstring)
    (iface : jsstring) : Async unit :=
  info ($"WireGuard interface '" +++ iface
        +++ $"' already exists. Adding routes...") ;;
  if (length domains =? 0)%nat && (length ips =? 0)%nat then
    warning
      $"Interface exists but no domains or IPs specified. Nothing to do."
  else
    allIPs <- addRoutes domains ips iface ;;
    (if (0 <? length allIPs)%nat then testConnectivity allIPs else ret tt) ;;
    info $"Route addition complete.".

(** index.ts:206 *)
Definition handleSetupMode (config : jsstring) (domains ips : list jsstring)
    (iface : jsstring) (stripDns : bool) : Async unit :=
  info $"Setting up WireGuard interface..." ;;
  setupWireGuard config iface stripDns ;;
  allIPs <- addRoutes domains ips iface ;;
  (if (0 <? length allIPs)%nat then testConnectivity allIPs else ret tt) ;;
  info $"WireGuard setup complete.".

(** index.ts:224 *)
Definition run : Async unit :=
  try_catch
    (if negb (Js.eqb (platform w) $"linux") then
       setFailed $"This action currently supports only Linux runners."
     else
       iface <- getInput w $"iface" false ;;
       let iface := Js.or_else iface $"wg0" in
       domains <- getInput w $"domains" false ;;
       let domains := parseInputList (Js.or_else domains []) in
       ips <- getInput w $"ips" false ;;
       let ips := parseInputList (Js.or_else ips []) in
       strip_dns <- getInput w $"strip_dns" false ;;
       let stripDns := negb (Js.eqb strip_dns $"false") in
       interfaceExists <- checkInterfaceExists iface ;;
       if interfaceExists then handleAddRouteMode domains ips iface
       else
         config <- getInput w $"config" true ;;
         handleSetupMode config domains ips iface stripDns)
    (fun err =>
       setFailed ($"WireGuard action failed: " +++ describe err)).

End Program.
End Index.

(* ===================================================================== *)
(** ** The resolver of the two earlier variants *)
(* ===================================================================== *)

(** The variant with mode handlers but without time bounds
    (src/unnamed/part_000). *)
Module Part000.
Section Program.
Variable w : World.

(** part_000:22 *)
Definition resolveDomainIPs (domain : jsstring) : Async (list jsstring) :=
  let ips : list jsstring := [] in
  ips <- try_catch
    (promise <- dns_resolve4 w domain ;;
     ipv4Addresses <- await promise ;;
     ret (ips ++ ipv4Addresses))
    (fun err =>
       if code_differs err $"ENOTFOUND" && code_differs err $"ENODATA" then
         warning ($"Failed to resolve IPv4 for " +++ domain +++ $": "
                  +++ message err) ;;
         ret ips
       else ret ips) ;;
  ips <- try_catch
    (promise <- dns_resolve6 w domain ;;
     ipv6Addresses <- await promise ;;
     ret (ips ++ ipv6Addresses))
    (fun err =>
       if code_differs err $"ENOTFOUND" && code_differs err $"ENODATA" then
         warning ($"Failed to resolve IPv6 for " +++ domain +++ $": "
                  +++ message err) ;;
         ret ips
       else ret ips) ;;
  ret ips.

End Program.
End Part000.

(** The variant that reports the public address
    (src/unnamed/part_001). *)
Module Part001.
Section Program.
Variable w : World.

(** part_001:47 *)
Definition resolveDomainIPs (domain : jsstring) : Async (list jsstring) :=
  let resolved : list jsstring := [] in
  resolved <- try_catch
    (promise <- dns_resolve4 w domain ;;
     v4 <- await promise ;;
     ret (resolved ++ v4))
    (fun e =>
       warning ($"IPv4 resolution failed for " +++ domain +++ $": "
                +++ message e) ;;
       ret resolved) ;;
  resolved <- try_catch
    (promise <- dns_resolve6 w domain ;;
     v6 <- await promise ;;
     ret (resolved ++ v6))
    (fun e =>
       warning ($"IPv6 resolution failed for " +++ domain +++ $": "
                +++ message e) ;;
       ret resolved) ;;
  ret resolved.

(** part_001:40. The exit code of the command is ignored. *)
Definition addSingleRoute (ip iface : jsstring) : Async unit :=
  let isIPv6 := Js.includes Js.colon ip in
  let cidr := if isIPv6 then ip +++ $"/128" else ip +++ $"/32" in
  let args := if isIPv6
              then [$"-6"; $"route"; $"add"; cidr; $"dev"; iface]
              else [$"route"; $"add"; cidr; $"dev"; iface] in
  exec_exec w $"sudo" ($"ip" :: args) (mkOpts true false) ;;
  ret tt.

(** part_001:69-76, the body of the inner loop. *)
Definition addDomainRoute (domain iface ip : jsstring)
    (allIPs : list jsstring) : Async (list jsstring) :=
  try_catch
    (info ($"Adding route for " +++ domain +++ $" (" +++ ip +++ $") via "
           +++ iface) ;;
     addSingleRoute ip iface ;;
     ret (allIPs ++ [ip]))
    (fun err =>
       warning ($"Failed to add route for " +++ ip +++ $": "
                +++ message err) ;;
       ret allIPs).

(** part_001:64 *)
Definition addRoutesForDomains (domains : list jsstring) (iface : jsstring)
  : Async (list jsstring) :=
  for_of domains
    (fun domain allIPs =>
       info ($"Resolving " +++ domain +++ $"...") ;;
       ips <- resolveDomainIPs domain ;;
       for_of ips (addDomainRoute domain iface) allIPs)
    [].

(** part_001:83-88, the body of the loop. *)
Definition addIPRoute (iface ip : jsstring) (_ : unit) : Async unit :=
  try_catch
    (addSingleRoute ip iface ;;
     info ($"Added route for " +++ ip))
    (fun err =>
       warning ($"Failed to add route for " +++ ip +++ $": "
                +++ message err)).

(** part_001:82 *)
Definition addRoutesForIPs (ips : list jsstring) (iface : jsstring)
  : Async unit :=
  for_of ips (addIPRoute iface) tt.

(** part_001:92 *)
Definition addRoutes (domains ips : list jsstring) (iface : jsstring)
  : Async (list jsstring) :=
  domainIPs <- addRoutesForDomains domains iface ;;
  addRoutesForIPs ips iface ;;
  ret (domainIPs ++ ips).

End Program.
End Part001.

(* ===================================================================== *)
(** ** Reading the log *)
(* ===================================================================== *)

(** The messages given to [core.warning], newest first. *)
Definition warnings (l : Log) : list jsstring :=
  omap (fun e => match e with Warning m => Some m | _ => None end) l.

(** The messages given to [core.setFailed]: the failure signal of the
    invocation. *)
Definition failures (l : Log) : list jsstring :=
  omap (fun e => match e with SetFailed m => Some m | _ => None end) l.

(** The commands started, newest first. *)
Definition commands (l : Log) : list (jsstring * list jsstring) :=
  omap (fun e => match e with Exec t a _ => Some (t, a) | _ => None end) l.

(** The lookups started, newest first. *)
Definition lookups (l : Log) : list (Family * jsstring) :=
  omap (fun e => match e with Resolve f d => Some (f, d) | _ => None end) l.

(** The durations of the timed awaits, newest first. *)
Definition waits (l : Log) : list N :=
  omap (fun e => match e with Waited ms => Some ms | _ => None end) l.

(** The arguments that follow [sudo] in a host route for [ip]. *)
Definition hostRoute (ip iface : jsstring) : list jsstring :=
  if Js.includes Js.colon ip
  then [$"ip"; $"-6"; $"route"; $"add"; ip +++ $"/128"; $"dev"; iface]
  else [$"ip"; $"route"; $"add"; ip +++ $"/32"; $"dev"; iface].

(** The events that change the routing table: [sudo ip ...]. *)
Definition isRouteOperation (e : Event) : bool :=
  match e with
  | Exec tool (first :: _) _ => Js.eqb tool $"sudo" && Js.eqb first $"ip"
  | _ => false
  end.

(** The addresses probed, newest first. *)
Definition probed (l : Log) : list jsstring :=
  omap (fun e => match e with
                 | Exec tool [_; _; _; _; ip] _ =>
                     if Js.eqb tool $"ping" || Js.eqb tool $"ping6"
                     then Some ip else None
                 | _ => None
                 end) l.

(** What the bounded lookup of index.ts makes of a resolver promise. *)
Inductive Observed : Type :=
| Answered (addrs : list jsstring)
| NoRecord                      (* rejected with ENOTFOUND or ENODATA *)
| Failed (e : JsError)          (* rejected otherwise *)
| TimedOut.                     (* the timer fired first *)

Definition isNoRecord (e : JsError) : bool :=
  match code e with
  | Some c => Js.eqb c $"ENOTFOUND" || Js.eqb c $"ENODATA"
  | None => false
  end.

Definition classify (s : Settled (list jsstring)) : Observed :=
  match s with
  | Fulfilled addrs => Answered addrs
  | Rejected e => if isNoRecord e then NoRecord else Failed e
  end.

Definition observe (timeoutMs : N) (p : Timed (Settled (list jsstring)))
  : Observed :=
  match p with
  | After ms s => if ms <? timeoutMs then classify s else TimedOut
  | Never => TimedOut
  end.

(** The addresses a family contributes. *)
Definition contributes (o : Observed) : list jsstring :=
  match o with
  | Answered addrs => addrs
  | _ => []
  end.

(* ===================================================================== *)
(** ** Vocabulary of the properties *)
(* ===================================================================== *)

Definition sepFree (sep : N) (f : jsstring) : Prop := Js.includes sep f = false.

Definition TrimOf (s t : jsstring) : Prop :=
  exists pre post,
    s = (pre ++ t ++ post)%list
    /\ Forall (fun c => Js.isWhiteSpace c = true) pre
    /\ Forall (fun c => Js.isWhiteSpace c = true) post
    /\ from_option Js.isWhiteSpace false (head t) = false
    /\ from_option Js.isWhiteSpace false (last t) = false.

Definition occurrences (tok : jsstring) (l : list jsstring) : nat :=
  length (List.filter (Js.eqb tok) l).


Definition Emits {A} (P : Event -> Prop) (m : Async A) : Prop :=
  forall log, exists new, snd (m log) = (new ++ log)%list /\ Forall P new.

Definition Completes {A} (m : Async A) : Prop :=
  forall log, exists a, fst (m log) = Returns a.

Definition Settles {A} (m : Async A) : Prop :=
  forall log, fst (m log) <> Hangs.

(** The commands in the log that @actions/exec rejected. *)
Fixpoint failedCommands (w : World) (l : Log) : nat :=
  match l with
  | [] => 0
  | Exec tool args opts :: before =>
      match settle_exec w tool opts (proc w before tool args) with
      | Fulfilled _ => failedCommands w before
      | Rejected _ => S (failedCommands w before)
      end
  | _ :: before => failedCommands w before
  end.

(** At some point of [log] the host route for [ip] was requested and the
    command exited with 0. *)
Definition RouteSucceeded (w : World) (iface : jsstring) (log : Log)
    (ip : jsstring) : Prop :=
  exists before,
    Exec $"sudo" (hostRoute ip iface) noOptions :: before `suffix_of` log
    /\ proc w before $"sudo" (hostRoute ip iface) = Exited 0.

(** The error with which @actions/exec refuses the host route for [ip]
    when it is requested after [before]; [None] when the command exits
    with 0. *)
Definition routeError (w : World) (before : Log) (ip iface : jsstring)
  : option JsError :=
  match settle_exec w $"sudo" noOptions
          (proc w before $"sudo" (hostRoute ip iface)) with
  | Fulfilled _ => None
  | Rejected e => Some e
  end.

(** [Tried w iface notice log ips kept done]: from [log] on, each address
    of [ips] in turn is announced with [notice] and its host route is
    requested; a request that is refused leaves one warning with the
    error, and the next address follows. [kept] holds the addresses whose
    request was accepted, in the order of [ips]; [done] is the log after
    the last address. *)
Inductive Tried (w : World) (iface : jsstring) (notice : jsstring -> jsstring)
  : Log -> list jsstring -> list jsstring -> Log -> Prop :=
| Tried_none log :
    Tried w iface notice log [] [] log
| Tried_accepted log ip ips kept done :
    routeError w (Info (notice ip) :: log) ip iface = None ->
    Tried w iface notice
      (Exec $"sudo" (hostRoute ip iface) noOptions :: Info (notice ip) :: log)
      ips kept done ->
    Tried w iface notice log (ip :: ips) (ip :: kept) done
| Tried_refused log ip ips kept done err :
    routeError w (Info (notice ip) :: log) ip iface = Some err ->
    Tried w iface notice
      (Warning ($"Failed to add route for " +++ ip +++ $": " +++ message err)
       :: Exec $"sudo" (hostRoute ip iface) noOptions
       :: Info (notice ip) :: log)
      ips kept done ->
    Tried w iface notice log (ip :: ips) kept done.

(** The line that announces the route of a literal address. *)
Definition literalNotice (iface ip : jsstring) : jsstring :=
  $"Adding route for "
  +++ (if Js.includes Js.colon ip then ip +++ $"/128" else ip +++ $"/32")
  +++ $" via " +++ iface.

(** The line that announces the route of an address of [domain]. *)
Definition domainNotice (domain iface ip : jsstring) : jsstring :=
  $"Adding route for " +++ domain +++ $" (" +++ ip +++ $") via " +++ iface.

(** [Batches w iface log domains perDomain done]: from [log] on, each
    domain in turn is announced and resolved, and the addresses that this
    resolution gave are tried in the order it gave them; [perDomain]
    holds, domain by domain, the addresses kept. *)
Inductive Batches (w : World) (iface : jsstring)
  : Log -> list jsstring -> list (list jsstring) -> Log -> Prop :=
| Batches_none log :
    Batches w iface log [] [] log
| Batches_domain log domain domains resolved after kept mid perDomain done :
    Index.resolveDomainIPs w domain
      (Info ($"Resolving " +++ domain +++ $"...") :: log)
    = (Returns resolved, after) ->
    Tried w iface (domainNotice domain iface) after resolved kept mid ->
    Batches w iface mid domains perDomain done ->
    Batches w iface log (domain :: domains) (kept :: perDomain) done.

(** What the batch of the domains adds to [log]: nothing when there is
    no domain; otherwise a first line with their number, the batches, and
    a last line with the number of addresses kept. *)
Definition DomainBatch (w : World) (iface : jsstring) (log : Log)
    (domains : list jsstring) (perDomain : list (list jsstring))
    (final : Log) : Prop :=
  match domains with
  | [] => perDomain = [] /\ final = log
  | _ :: _ =>
      exists done,
        Batches w iface
          (Info ($"Adding routes for " +++ Js.ofNat (length domains)
                 +++ $" domain(s)...") :: log)
          domains perDomain done
        /\ final
           = Info ($"Added " +++ Js.ofNat (length (concat perDomain))
                   +++ $" route(s) for domains.") :: done
  end.

(** The same for the batch of the literal addresses. *)
Definition LiteralBatch (w : World) (iface : jsstring) (log : Log)
    (ips kept : list jsstring) (final : Log) : Prop :=
  match ips with
  | [] => kept = [] /\ final = log
  | _ :: _ =>
      exists done,
        Tried w iface (literalNotice iface)
          (Info ($"Adding routes for " +++ Js.ofNat (length ips)
                 +++ $" IP address(es)...") :: log)
          ips kept done
        /\ final
           = Info ($"Added " +++ Js.ofNat (length kept)
                   +++ $" route(s) for IPs.") :: done
  end.

(** What a time-bounded lookup leaves in the log after the request: no
    lookup, command or failure signal, and a warning exactly when the
    lookup timed out or failed for a reason other than a missing
    record. *)
Definition Surfaced (o : Observed) (new : Log) : Prop :=
  lookups new = [] /\ commands new = [] /\ failures new = []
  /\ match o with
     | Answered _ | NoRecord => warnings new = []
     | Failed _ | TimedOut => exists msg, warnings new = [msg]
     end.

(** One [try] block of [resolveDomainIPs] in index.ts, as a function of
    the lookup it starts and of the family name in its messages. *)
Definition boundedLookup (start : Async (Timed (Settled (list jsstring))))
    (fam domain : jsstring) (ips : list jsstring) : Async (list jsstring) :=
  try_catch
    (promise <- start ;;
     addresses <- resolveWithTimeout promise 5000 ;;
     match addresses with
     | Some addrs => ret (ips ++ addrs)%list
     | None =>
         warning (fam +++ $" resolution for " +++ domain +++ $" timed out") ;;
         ret ips
     end)
    (fun err =>
       if code_differs err $"ENOTFOUND" && code_differs err $"ENODATA" then
         warning ($"Failed to resolve " +++ fam +++ $" for " +++ domain
                  +++ $": " +++ message err) ;;
         ret ips
       else ret ips).

(** Starting a lookup with the resolver [oracle]. *)
Definition startLookup (family : Family)
    (oracle : Log -> jsstring -> Timed (Settled (list jsstring)))
    (domain : jsstring) : Async (Timed (Settled (list jsstring))) :=
  log <- history ;; emit (Resolve family domain) ;; ret (oracle log domain).

(** Among the events that change the routing table, only host routes. *)
Definition HostRouteOnly (e : Event) : Prop :=
  if isRouteOperation e
  then exists ip iface, e = Exec $"sudo" (hostRoute ip iface) noOptions
  else True.

(** Not a failure signal. *)
Definition NotFailure (e : Event) : Prop :=
  match e with SetFailed _ => False | _ => True end.

(** [WireGuard action failed: ...], the message of the [catch] of [run]. *)
Definition failedWith (err : JsError) : jsstring :=
  $"WireGuard action failed: " +++ describe err.

(** The name of the tunnel interface: the input [iface], [wg0] when it is
    not given. *)
Definition ifaceOf (w : World) : jsstring :=
  Js.or_else (Js.trim (default [] (inputs w !! $"iface"))) $"wg0".

(** What decides the failure signal of an invocation started after [log]:
    the platform, the interface query, the input [config] and the
    bring-up of the tunnel. *)
Definition verdict (w : World) (log : Log) : list jsstring :=
  if negb (Js.eqb (platform w) $"linux") then
    [$"This action currently supports only Linux runners."]
  else
    match Index.checkInterfaceExists w (ifaceOf w) log with
    | (Returns true, _) => []
    | (Returns false, log1) =>
        match getInput w $"config" true log1 with
        | (Returns config, log2) =>
            match
              fst (Index.setupWireGuard w config (ifaceOf w)
                     (negb (Js.eqb (Js.trim (default []
                                               (inputs w !! $"strip_dns")))
                                   $"false"))
                     (Info $"Setting up WireGuard interface..." :: log2))
            with
            | Throws e => [failedWith e]
            | _ => []
            end
        | (Throws e, _) => [failedWith e]
        | (Hangs, _) => []
        end
    | (Throws e, _) => [failedWith e]
    | (Hangs, _) => []
    end.

(** One [try] block of [resolveDomainIPs] in the two earlier variants:
    the lookup is awaited as it is. *)
Definition awaitedLookup (start : Async (Timed (Settled (list jsstring))))
    (handler : JsError -> Async (list jsstring)) (ips : list jsstring)
  : Async (list jsstring) :=
  try_catch
    (promise <- start ;;
     addresses <- await promise ;;
     ret (ips ++ addresses)%list)
    handler.

(** The [catch] block of part_000: silent for a missing record. *)
Definition filteredHandler (fam domain : jsstring) (ips : list jsstring)
  : JsError -> Async (list jsstring) :=
  fun err =>
    if code_differs err $"ENOTFOUND" && code_differs err $"ENODATA" then
      warning ($"Failed to resolve " +++ fam +++ $" for " +++ domain
               +++ $": " +++ message err) ;;
      ret ips
    else ret ips.

(** The addresses of a settled lookup. *)
Definition answers (s : Settled (list jsstring)) : list jsstring :=
  match s with
  | Fulfilled addrs => addrs
  | Rejected _ => []
  end.

(** What an awaited lookup of part_001 leaves in the log after the
    request: a warning exactly when the lookup was rejected, whatever the
    reason. *)
Definition WarnsOnEveryFailure (s : Settled (list jsstring)) (new : Log)
  : Prop :=
  failures new = []
  /\ match s with
     | Fulfilled _ => warnings new = []
     | Rejected _ => exists msg, warnings new = [msg]
     end.

(** A time-bounded lookup that lost against its timer leaves a warning
    and contributes no address. *)
Definition TimeoutSurfaced (timeoutMs : N)
    (p : Timed (Settled (list jsstring))) (new : Log) : Prop :=
  match p with
  | After ms _ =>
      if ms <? timeoutMs then True
      else (exists msg, warnings new = [msg])
           /\ contributes (observe timeoutMs p) = []
  | Never =>
      (exists msg, warnings new = [msg])
      /\ contributes (observe timeoutMs p) = []
  end.

(* --------------------------------------------------------------------- *)
(** *** Hosts for the examples *)
(* --------------------------------------------------------------------- *)

(** The value of a character of the base64 alphabet (the URL-safe
    variants included, as Node reads them). *)
Definition sextet (c : N) : option N :=
  if (65 <=? c) && (c <=? 90) then Some (c - 65)
  else if (97 <=? c) && (c <=? 122) then Some (c - 71)
  else if (48 <=? c) && (c <=? 57) then Some (c + 4)
  else if (c =? 43) || (c =? 45) then Some 62
  else if (c =? 47) || (c =? 95) then Some 63
  else None.

(** The sextets of a base64 text, up to its padding. *)
Fixpoint sextets (s : jsstring) : list N :=
  match s with
  | [] => []
  | c :: s' =>
      if c =? 61 then []
      else match sextet c with
           | Some v => v :: sextets s'
           | None => sextets s'
           end
  end.

(** Four sextets give three bytes. *)
Fixpoint octets (sx : list N) : list N :=
  match sx with
  | a :: b :: c :: d :: rest =>
      (a * 4 + b / 16) :: ((b mod 16) * 16 + c / 4)
      :: ((c mod 4) * 64 + d) :: octets rest
  | [a; b; c] => [a * 4 + b / 16; (b mod 16) * 16 + c / 4]
  | [a; b] => [a * 4 + b / 16]
  | _ => []
  end.

(** [Buffer.from(s, "base64").toString("utf8")] for a text whose decoded
    bytes are ASCII: each byte is one code unit. *)
Definition base64Ascii (s : jsstring) : jsstring := octets (sextets s).

(** [s.toLowerCase()] for ASCII letters; other code units are kept. *)
Definition lowerAscii (s : jsstring) : jsstring :=
  List.map (fun c => if (65 <=? c) && (c <=? 90) then c + 32 else c) s.

(** A Linux host whose tools are in [/usr/bin]: a command that exits with
    a non-zero code is reported by @actions/exec with its path and that
    code. Configurations are taken to be ASCII. *)
Definition host (ins : list (jsstring * jsstring))
    (procs : Log -> jsstring -> list jsstring -> ProcEnd)
    (dns4 dns6 : Log -> jsstring -> Timed (Settled (list jsstring)))
  : World :=
  mkWorld $"linux" (list_to_map ins) procs
    (fun _ _ _ => After 30 (Exited 0))
    (fun tool c =>
       Error ($"The process '/usr/bin/" +++ tool
              +++ $"' failed with exit code " +++ Js.ofNat (Z.to_nat c)))
    dns4 dns6
    (fun _ pfx => Fulfilled (pfx +++ $"Ab12Cd"))
    (fun _ _ _ _ => Fulfilled tt)
    (fun _ _ => Fulfilled tt)
    base64Ascii lowerAscii $"/tmp"
    (fun a b => a +++ $"/" +++ b).

(** A resolver that has no record of any name. *)
Definition noRecords (family : jsstring)
  : Log -> jsstring -> Timed (Settled (list jsstring)) :=
  fun _ domain =>
    After 15 (Rejected (mkError (Some $"ENODATA")
                          ($"query" +++ family +++ $" ENODATA " +++ domain))).

(** Every command succeeds. *)
Definition allSucceed : Log -> jsstring -> list jsstring -> ProcEnd :=
  fun _ _ _ => Exited 0.

(** The interface exists ([ip link show] exits with 0), every command
    run through [sudo] is refused. *)
Definition routesRefused : Log -> jsstring -> list jsstring -> ProcEnd :=
  fun _ tool _ => if Js.eqb tool $"sudo" then Exited 2 else Exited 0.

(** No interface: [ip link show] exits with 1. *)
Definition noInterface : Log -> jsstring -> list jsstring -> ProcEnd :=
  fun _ tool _ => if Js.eqb tool $"ip" then Exited 1 else Exited 0.

(** A configuration with two DNS lines, as its lines, and in base64. *)
Definition exampleConfig : list jsstring :=
  [$"[Interface]"; $"PrivateKey = abc"; $"DNS = 1.1.1.1"; $"  dns=8.8.8.8";
   $"Address = 10.0.0.2/32"].

Definition exampleConfigBase64 : jsstring :=
  $"W0ludGVyZmFjZV0KUHJpdmF0ZUtleSA9IGFiYwpETlMgPSAxLjEuMS4xCiAgZG5zPTguOC44LjgKQWRkcmVzcyA9IDEwLjAuMC4yLzMy".

(** The interface is up and nothing is refused; no name resolves. *)
Definition quietHost : World :=
  host [] allSucceed (noRecords $"A") (noRecords $"Aaaa").

(** A name with two A records; the route of the first address is
    refused. *)
Definition pickyHost : World :=
  host []
    (fun _ tool args =>
       if Js.eqb tool $"sudo" && existsb (Js.eqb $"10.0.0.1/32") args
       then Exited 2 else Exited 0)
    (fun _ _ => After 12 (Fulfilled [$"10.0.0.1"; $"10.0.0.2"]))
    (noRecords $"Aaaa").

(** A name with an A record only. *)
Definition v4onlyHost : World :=
  host [] allSucceed
    (fun _ _ => After 12 (Fulfilled [$"93.184.216.34"]))
    (noRecords $"Aaaa").

(** A resolver whose server does not answer: after its own retries, 27
    seconds later, c-ares gives up with ETIMEOUT. *)
Definition unanswered (family : jsstring)
  : Log -> jsstring -> Timed (Settled (list jsstring)) :=
  fun _ domain =>
    After 27000 (Rejected (mkError (Some $"ETIMEOUT")
                             ($"query" +++ family +++ $" ETIMEOUT "
                              +++ domain))).

(** A host whose name server is unreachable. *)
Definition slowHost : World :=
  host [] allSucceed (unanswered $"A") (unanswered $"Aaaa").

(** The interface is up, one literal address is given and its route is
    refused. *)
Definition refusingHost : World :=
  host [($"ips", $"10.0.0.5")] routesRefused
    (noRecords $"A") (noRecords $"Aaaa").

(** No interface and no [config] input. *)
Definition bareHost : World :=
  host [($"ips", $"10.0.0.5")] noInterface
    (noRecords $"A") (noRecords $"Aaaa").

(** A token in normal form: not empty, without a comma, and with no
    white space at either end. *)
Definition NormalToken (t : jsstring) : Prop :=
  t <> [] /\ sepFree Js.comma t /\ Js.trim t = t.

(** Not a step of the tunnel bring-up: no file is touched and [sudo]
    runs nothing but [ip]. *)
Definition NoBringUp (e : Event) : Prop :=
  match e with
  | Mkdtemp _ | WriteFile _ _ _ | MkdirP _ => False
  | Exec tool (first :: _) _ =>
      if Js.eqb tool $"sudo" then Js.eqb first $"ip" = true else True
  | _ => True
  end.

(** Neither a route operation nor a lookup nor a ping. *)
Definition NoRouting (e : Event) : Prop :=
  isRouteOperation e = false /\ lookups [e] = [] /\ probed [e] = [].




(** A line that [strip_dns] removes. *)
Definition isDnsLine (w : World) (line : jsstring) : bool :=
  Js.startsWith $"dns" (toLowerCase w (Js.trim line)).

(** The files written, newest first. *)
Definition written (l : Log) : list (jsstring * jsstring * N) :=
  omap (fun e => match e with
                 | WriteFile f c m => Some (f, c, m)
                 | _ => None
                 end) l.

(** The ping of [ip]. *)
Definition pingCommand (ip : jsstring) : jsstring * list jsstring :=
  (if Js.includes Js.colon ip then $"ping6" else $"ping",
   [$"-c"; $"2"; $"-W"; $"3"; ip]).

(** The warning of a ping that lost against the timer. *)
Definition pingTimedOut (ip : jsstring) : jsstring :=
  $"Ping test for " +++ ip +++ $" failed or timed out: Ping timeout".

(** The warning of a ping that could not be started. *)
Definition pingNotStarted (ip : jsstring) (e : JsError) : jsstring :=
  $"Ping test for " +++ ip +++ $" failed or timed out: " +++ message e.

(** The two lookups made for a domain, in the order they are made. *)
Definition lookupsFor (domain : jsstring) : list (Family * jsstring) :=
  [(IPv4, domain); (IPv6, domain)].

(** The messages given to [core.info], newest first. *)
Definition infos (l : Log) : list jsstring :=
  omap (fun e => match e with Info m => Some m | _ => None end) l.

(** What an awaited lookup of part_000 leaves in the log after the
    request: a warning exactly when the lookup was rejected for a reason
    other than a missing record. *)
Definition WarnsUnlessNoRecord (s : Settled (list jsstring)) (new : Log)
  : Prop :=
  failures new = []
  /\ match classify s with
     | Failed _ => exists msg, warnings new = [msg]
     | _ => warnings new = []
     end.

(* ===================================================================== *)
(** ** Strings *)
(* ===================================================================== *)

Section Strings.

Lemma last_rev {A} (l : list A) : last (rev l) = head l.
Proof. rewrite rev_alt. apply last_reverse. Qed.

Lemma split_not_nil sep s : Js.split sep s <> [].
Proof.
  destruct s as [|c s]; simpl; [done|].
  destruct (c =? sep); [done|]. by destruct (Js.split sep s).
Qed.

Lemma join_split sep s : Js.join sep (Js.split sep s) = s.
Proof.
  induction s as [|c s IH]; [done|]. simpl.
  destruct (N.eqb_spec c sep) as [->|Hne].
  - pose proof (split_not_nil sep s) as Hnn.
    simpl. destruct (Js.split sep s) as [|f rest]; [done|].
    simpl in *. by rewrite IH.
  - pose proof (split_not_nil sep s) as Hnn.
    destruct (Js.split sep s) as [|f rest]; [done|].
    simpl in *. destruct rest; simpl in *; by rewrite <- IH.
Qed.

Lemma split_sepFree sep s : Forall (sepFree sep) (Js.split sep s).
Proof.
  induction s as [|c s IH]; simpl.
  - by repeat constructor.
  - destruct (N.eqb_spec c sep) as [->|Hne].
    + constructor; [done|exact IH].
    + destruct (Js.split sep s) as [|f rest].
      * repeat constructor. unfold sepFree. simpl.
        rewrite orb_false_r. apply N.eqb_neq. congruence.
      * inversion IH as [|? ? Hf Hrest]; subst. constructor; [|done].
        unfold sepFree in *. simpl. rewrite Hf, orb_false_r.
        apply N.eqb_neq. congruence.
Qed.

Lemma split_app_sepFree sep f s :
  sepFree sep f -> Js.split sep (f ++ sep :: s) = f :: Js.split sep s.
Proof.
  induction f as [|c f IH]; intros Hf; simpl.
  - by rewrite N.eqb_refl.
  - unfold sepFree in Hf. simpl in Hf. apply orb_false_elim in Hf as [Hc Hf].
    rewrite N.eqb_sym, Hc. by rewrite IH.
Qed.

Lemma split_sepFree_id sep f : sepFree sep f -> Js.split sep f = [f].
Proof.
  induction f as [|c f IH]; intros Hf; simpl; [done|].
  unfold sepFree in Hf. simpl in Hf. apply orb_false_elim in Hf as [Hc Hf].
  rewrite N.eqb_sym, Hc. by rewrite IH.
Qed.

Lemma split_join sep fields :
  fields <> [] -> Forall (sepFree sep) fields ->
  Js.split sep (Js.join sep fields) = fields.
Proof.
  induction fields as [|f rest IH]; intros Hnn Hall; [done|].
  inversion Hall as [|? ? Hf Hrest]; subst.
  destruct rest as [|g rest].
  - simpl. by apply split_sepFree_id.
  - change (Js.join sep (f :: g :: rest)) with (f ++ sep :: Js.join sep (g :: rest))%list.
    rewrite split_app_sepFree by done. f_equal. by apply IH.
Qed.

Lemma trimStart_spec s :
  exists pre, s = (pre ++ Js.trimStart s)%list
    /\ Forall (fun c => Js.isWhiteSpace c = true) pre
    /\ from_option Js.isWhiteSpace false (head (Js.trimStart s)) = false.
Proof.
  induction s as [|c s (pre & Hs & Hpre & Hhd)]; simpl.
  - by exists [].
  - destruct (Js.isWhiteSpace c) eqn:Hc.
    + exists (c :: pre). simpl. rewrite <- Hs. repeat split; auto.
    + exists []. simpl. by rewrite Hc.
Qed.

Lemma trim_spec s : TrimOf s (Js.trim s).
Proof.
  unfold Js.trim, Js.trimEnd.
  destruct (trimStart_spec s) as (pre & Hs & Hpre & Hhd).
  set (t1 := Js.trimStart s) in *.
  destruct (trimStart_spec (rev t1)) as (erp & Ht1 & Herp & Hlast).
  set (u := Js.trimStart (rev t1)) in *.
  assert (Ht : t1 = (rev u ++ rev erp)%list).
  { rewrite <- rev_app_distr, <- Ht1. by rewrite rev_involutive. }
  exists pre, (rev erp). repeat split.
  - by rewrite <- Ht.
  - done.
  - apply Forall_rev. done.
  - rewrite Ht in Hhd. destruct (rev u) as [|c r]; [done|]. done.
  - by rewrite last_rev.
Qed.

End Strings.


(* ===================================================================== *)
(** ** Reasoning about [Async] *)
(* ===================================================================== *)




Lemma Emits_ret {A} P (a : A) : Emits P (ret a).
Proof. intros log. by exists []. Qed.

Lemma Emits_throw {A} P e : Emits P (@throw A e).
Proof. intros log. by exists []. Qed.

Lemma Emits_history  P : Emits P history.
Proof. intros log. by exists []. Qed.

Lemma Emits_emit  P e : P e -> Emits P (emit e).
Proof. intros He log. exists [e]. split; [done|]. by constructor. Qed.

Lemma Emits_bind {A B} P (m : Async A) (k : A -> Async B) :
  Emits P m -> (forall a, Emits P (k a)) -> Emits P (bind m k).
Proof.
  intros Hm Hk log. unfold bind.
  destruct (Hm log) as (new & Hlog & Hnew).
  destruct (m log) as [[a|e|] log']; simpl in Hlog; subst log'.
  - destruct (Hk a (new ++ log)%list) as (new' & Hlog' & Hnew').
    exists (new' ++ new)%list. rewrite Hlog', app_assoc. split; [done|].
    by apply Forall_app.
  - by exists new.
  - by exists new.
Qed.

Lemma Emits_try_catch {A} P (m : Async A) (h : JsError -> Async A) :
  Emits P m -> (forall e, Emits P (h e)) -> Emits P (try_catch m h).
Proof.
  intros Hm Hh log. unfold try_catch.
  destruct (Hm log) as (new & Hlog & Hnew).
  destruct (m log) as [[a|e|] log']; simpl in Hlog; subst log'.
  - by exists new.
  - destruct (Hh e (new ++ log)%list) as (new' & Hlog' & Hnew').
    exists (new' ++ new)%list. rewrite Hlog', app_assoc. split; [done|].
    by apply Forall_app.
  - by exists new.
Qed.

Lemma Emits_for_of {A S} P (xs : list A) (body : A -> S -> Async S) s :
  (forall x s, Emits P (body x s)) -> Emits P (for_of xs body s).
Proof.
  intros Hbody. revert s. induction xs as [|x xs IH]; intros s; simpl.
  - intros log. by exists [].
  - intros log. unfold bind.
    destruct (Hbody x s log) as (new & Hlog & Hnew).
    destruct (body x s log) as [[s'|e|] log']; simpl in Hlog; subst log'.
    + destruct (IH s' (new ++ log)%list) as (new' & Hlog' & Hnew').
      exists (new' ++ new)%list. rewrite Hlog', app_assoc. split; [done|].
      by apply Forall_app.
    + by exists new.
    + by exists new.
Qed.

Lemma Completes_ret {A} (a : A) : Completes (ret a).
Proof. intros log. by exists a. Qed.

Lemma Completes_bind {A B} (m : Async A) (k : A -> Async B) :
  Completes m -> (forall a, Completes (k a)) -> Completes (bind m k).
Proof.
  intros Hm Hk log. unfold bind. destruct (Hm log) as (a & Ha).
  destruct (m log) as [[a'|e|] log']; simpl in Ha; try done.
  apply Hk.
Qed.

Lemma Completes_try_catch {A} (m : Async A) (h : JsError -> Async A) :
  Settles m -> (forall e, Completes (h e)) -> Completes (try_catch m h).
Proof.
  intros Hm Hh log. unfold try_catch. specialize (Hm log).
  destruct (m log) as [[a|e|] log']; simpl in *.
  - by exists a.
  - apply Hh.
  - done.
Qed.

Lemma Completes_for_of {A S} (xs : list A) (body : A -> S -> Async S) s :
  (forall x s, Completes (body x s)) -> Completes (for_of xs body s).
Proof.
  intros Hbody. revert s. induction xs as [|x xs IH]; intros s; simpl.
  - apply Completes_ret.
  - apply Completes_bind; [apply Hbody|]. intros s'. apply IH.
Qed.

Lemma Completes_Settles {A} (m : Async A) : Completes m -> Settles m.
Proof. intros Hm log. destruct (Hm log) as (a & ->). done. Qed.

Lemma Settles_bind {A B} (m : Async A) (k : A -> Async B) :
  Settles m -> (forall a, Settles (k a)) -> Settles (bind m k).
Proof.
  intros Hm Hk log. unfold bind. specialize (Hm log).
  destruct (m log) as [[a|e|] log']; simpl in *; [apply Hk|done|done].
Qed.

Lemma Settles_ret {A} (a : A) : Settles (ret a).
Proof. intros log. done. Qed.

Lemma Settles_throw {A} e : Settles (@throw A e).
Proof. intros log. done. Qed.


Lemma bind_returns {A B} (m : Async A) (k : A -> Async B) log a log' :
  m log = (Returns a, log') -> bind m k log = k a log'.
Proof. intros H. unfold bind. by rewrite H. Qed.

Lemma bind_throws {A B} (m : Async A) (k : A -> Async B) log e log' :
  m log = (Throws e, log') -> bind m k log = (Throws e, log').
Proof. intros H. unfold bind. by rewrite H. Qed.

Lemma bind_hangs {A B} (m : Async A) (k : A -> Async B) log log' :
  m log = (Hangs, log') -> bind m k log = (Hangs, log').
Proof. intros H. unfold bind. by rewrite H. Qed.

Lemma Completes_emit e : Completes (emit e).
Proof. intros log. by exists tt. Qed.

Lemma Completes_history : Completes history.
Proof. intros log. by exists log. Qed.

Lemma Settles_settle {A} (s : Settled A) : Settles (settle s).
Proof. destruct s; intros log; done. Qed.


Section LogFacts.
Implicit Types (a b l : Log) (e : Event).

Lemma warnings_app a b : warnings (a ++ b) = (warnings a ++ warnings b)%list.
Proof. apply omap_app. Qed.
Lemma failures_app a b : failures (a ++ b) = (failures a ++ failures b)%list.
Proof. apply omap_app. Qed.
Lemma commands_app a b : commands (a ++ b) = (commands a ++ commands b)%list.
Proof. apply omap_app. Qed.
Lemma lookups_app a b : lookups (a ++ b) = (lookups a ++ lookups b)%list.
Proof. apply omap_app. Qed.
Lemma waits_app a b : waits (a ++ b) = (waits a ++ waits b)%list.
Proof. apply omap_app. Qed.
Lemma probed_app a b : probed (a ++ b) = (probed a ++ probed b)%list.
Proof. apply omap_app. Qed.

Lemma warnings_cons e l :
  warnings (e :: l)
  = match e with Warning m => m :: warnings l | _ => warnings l end.
Proof. by destruct e. Qed.
Lemma failures_cons e l :
  failures (e :: l)
  = match e with SetFailed m => m :: failures l | _ => failures l end.
Proof. by destruct e. Qed.
Lemma commands_cons e l :
  commands (e :: l)
  = match e with Exec t a _ => (t, a) :: commands l | _ => commands l end.
Proof. by destruct e. Qed.
Lemma lookups_cons e l :
  lookups (e :: l)
  = match e with Resolve f d => (f, d) :: lookups l | _ => lookups l end.
Proof. by destruct e. Qed.
Lemma waits_cons e l :
  waits (e :: l)
  = match e with Waited ms => ms :: waits l | _ => waits l end.
Proof. by destruct e. Qed.
Lemma probed_cons e l : probed (e :: l) = (probed [e] ++ probed l)%list.
Proof. apply (omap_app _ [e] l). Qed.
Lemma probed_cons2 e e' l :
  probed (e :: e' :: l) = (probed [e] ++ probed (e' :: l))%list.
Proof. apply probed_cons. Qed.
Lemma probed_route ip iface opts :
  probed [Exec $"sudo" (hostRoute ip iface) opts] = [].
Proof. unfold hostRoute. by destruct (Js.includes Js.colon ip). Qed.

Lemma warnings_nil : warnings [] = []. Proof. done. Qed.
Lemma failures_nil : failures [] = []. Proof. done. Qed.
Lemma commands_nil : commands [] = []. Proof. done. Qed.
Lemma lookups_nil : lookups [] = []. Proof. done. Qed.
Lemma waits_nil : waits [] = []. Proof. done. Qed.
Lemma probed_nil : probed [] = []. Proof. done. Qed.

End LogFacts.

(** Splits the projections of a log along its segments. *)
Ltac logs :=
  repeat (rewrite ?warnings_app, ?failures_app, ?commands_app, ?lookups_app,
            ?waits_app, ?probed_app;
          progress (rewrite ?warnings_cons, ?failures_cons, ?commands_cons,
                      ?lookups_cons, ?waits_cons; cbn beta iota));
  rewrite ?warnings_app, ?failures_app, ?commands_app, ?lookups_app,
    ?waits_app, ?probed_app, ?warnings_nil, ?failures_nil, ?commands_nil,
    ?lookups_nil, ?waits_nil, ?probed_nil.

Ltac run_async :=
  repeat (progress (unfold try_catch, bind, history, emit, warning, info,
                      setFailed, ret, throw, hang, settle;
                    cbn beta iota)).

Lemma code_differs_isNoRecord e :
  code_differs e $"ENOTFOUND" && code_differs e $"ENODATA"
  = negb (isNoRecord e).
Proof.
  unfold code_differs, isNoRecord. destruct (code e) as [c|]; [|done].
  by rewrite negb_orb.
Qed.

Lemma boundedLookup_run family oracle fam domain ips log :
  exists new,
    boundedLookup (startLookup family oracle domain) fam domain ips log
    = (Returns (ips ++ contributes (observe 5000 (oracle log domain)))%list,
       (new ++ Resolve family domain :: log)%list)
    /\ Surfaced (observe 5000 (oracle log domain)) new
    /\ probed new = []
    /\ exists ms, waits new = [ms] /\ ms <= 5000.
Proof.
  unfold boundedLookup, startLookup, resolveWithTimeout, observe.
  run_async.
  destruct (oracle log domain) as [ms [addrs|e]|]; run_async.
  - destruct (N.ltb_spec ms 5000); run_async.
    + exists [Waited ms]. repeat split; try done. exists ms. split; [done|lia].
    + eexists [_; Waited 5000]. rewrite app_nil_r.
      repeat split; try done; [by eexists|]. by exists 5000.
  - destruct (N.ltb_spec ms 5000); run_async.
    + rewrite code_differs_isNoRecord. unfold classify.
      destruct (isNoRecord e); run_async.
      * exists [Waited ms]. rewrite app_nil_r.
        repeat split; try done. exists ms. split; [done|lia].
      * eexists [_; Waited ms]. rewrite app_nil_r.
        repeat split; try done; [by eexists|]. exists ms. split; [done|lia].
    + eexists [_; Waited 5000]. rewrite app_nil_r.
      repeat split; try done; [by eexists|]. by exists 5000.
  - eexists [_; Waited 5000]. rewrite app_nil_r.
    repeat split; try done; [by eexists|]. by exists 5000.
Qed.

Section IndexFacts.
Variable w : World.

Lemma exec_exec_run tool args opts log :
  exec_exec w tool args opts log
  = (match settle_exec w tool opts (proc w log tool args) with
     | Fulfilled c => Returns c
     | Rejected e => Throws e
     end, Exec tool args opts :: log).
Proof.
  unfold exec_exec, bind, history, emit.
  by destruct (settle_exec w tool opts (proc w log tool args)).
Qed.

Lemma addSingleRoute_run ip iface log :
  Index.addSingleRoute w ip iface log
  = (match proc w log $"sudo" (hostRoute ip iface) with
     | Exited 0 => Returns tt
     | Exited c => Throws (exitFailure w $"sudo" c)
     | SpawnError e => Throws e
     end, Exec $"sudo" (hostRoute ip iface) noOptions :: log).
Proof.
  unfold Index.addSingleRoute, hostRoute, bind.
  destruct (Js.includes Js.colon ip); cbn [app]; rewrite exec_exec_run;
    (destruct (proc w log _ _) as [[|c|c]|e]; reflexivity).
Qed.

Lemma addSingleRoute_outcome ip iface log :
  Index.addSingleRoute w ip iface log
  = (match routeError w log ip iface with
     | None => Returns tt
     | Some e => Throws e
     end, Exec $"sudo" (hostRoute ip iface) noOptions :: log).
Proof.
  rewrite addSingleRoute_run. unfold routeError, settle_exec.
  by destruct (proc w log _ _) as [[|c|c]|e].
Qed.

Lemma literal_loop_tried iface ips n log :
  exists kept done,
    for_of ips (Index.addIPRoute w iface) n log
    = (Returns (n + length kept)%nat, done)
    /\ Tried w iface (literalNotice iface) log ips kept done.
Proof.
  revert n log. induction ips as [|ip ips IH]; intros n log.
  - exists [], log. rewrite Nat.add_0_r. split; [done|constructor].
  - cbn [for_of].
    destruct (routeError w (Info (literalNotice iface ip) :: log) ip iface)
      as [err|] eqn:Herr.
    + destruct (IH n (Warning ($"Failed to add route for " +++ ip +++ $": "
                               +++ message err)
                      :: Exec $"sudo" (hostRoute ip iface) noOptions
                      :: Info (literalNotice iface ip) :: log))
        as (kept & done & Hrun & Htried).
      exists kept, done. split; [|by eapply Tried_refused].
      erewrite bind_returns; [exact Hrun|].
      unfold Index.addIPRoute, try_catch, bind, info, warning, emit.
      rewrite addSingleRoute_outcome.
      change ($"Adding route for " +++ _) with (literalNotice iface ip).
      by rewrite Herr.
    + destruct (IH (S n) (Exec $"sudo" (hostRoute ip iface) noOptions
                          :: Info (literalNotice iface ip) :: log))
        as (kept & done & Hrun & Htried).
      exists (ip :: kept), done. split; [|by eapply Tried_accepted].
      erewrite bind_returns;
        [rewrite Hrun; cbn [length]; by rewrite Nat.add_succ_r|].
      unfold Index.addIPRoute, try_catch, bind, info, warning, emit.
      rewrite addSingleRoute_outcome.
      change ($"Adding route for " +++ _) with (literalNotice iface ip).
      by rewrite Herr.
Qed.

Lemma domain_loop_tried domain iface ips st log :
  exists kept done,
    for_of ips (Index.addDomainRoute w domain iface) st log
    = (Returns (Index.mkDomainLoop
                  (Index.routeCount st + length kept)
                  (Index.allIPs st ++ kept)), done)
    /\ Tried w iface (domainNotice domain iface) log ips kept done.
Proof.
  revert st log. induction ips as [|ip ips IH]; intros st log.
  - exists [], log. rewrite Nat.add_0_r, app_nil_r. destruct st.
    split; [done|constructor].
  - cbn [for_of].
    destruct (routeError w (Info (domainNotice domain iface ip) :: log)
                ip iface) as [err|] eqn:Herr.
    + destruct (IH st (Warning ($"Failed to add route for " +++ ip +++ $": "
                                +++ message err)
                       :: Exec $"sudo" (hostRoute ip iface) noOptions
                       :: Info (domainNotice domain iface ip) :: log))
        as (kept & done & Hrun & Htried).
      exists kept, done. split; [|by eapply Tried_refused].
      erewrite bind_returns; [exact Hrun|].
      unfold Index.addDomainRoute, try_catch, bind, info, warning, emit.
      rewrite addSingleRoute_outcome.
      change ($"Adding route for " +++ _) with (domainNotice domain iface ip).
      by rewrite Herr.
    + destruct (IH (Index.mkDomainLoop (S (Index.routeCount st))
                      (Index.allIPs st ++ [ip]))
                  (Exec $"sudo" (hostRoute ip iface) noOptions
                   :: Info (domainNotice domain iface ip) :: log))
        as (kept & done & Hrun & Htried).
      exists (ip :: kept), done. split; [|by eapply Tried_accepted].
      erewrite bind_returns;
        [rewrite Hrun; cbn [length Index.routeCount Index.allIPs];
         by rewrite Nat.add_succ_r, <- app_assoc|].
      unfold Index.addDomainRoute, try_catch, bind, info, warning, emit.
      rewrite addSingleRoute_outcome.
      change ($"Adding route for " +++ _) with (domainNotice domain iface ip).
      by rewrite Herr.
Qed.


Lemma addIPRoute_step iface ip n log :
  exists new k,
    Index.addIPRoute w iface ip n log = (Returns (n + k)%nat, new ++ log)%list
    /\ commands new = [($"sudo", hostRoute ip iface)]
    /\ failures new = []
    /\ probed new = []
    /\ (k + length (warnings new) = 1)%nat
    /\ failedCommands w (new ++ log)
       = (length (warnings new) + failedCommands w log)%nat.
Proof.
  unfold Index.addIPRoute, try_catch, bind, info, warning, emit.
  rewrite addSingleRoute_run.
  set (msg := $"Adding route for " +++ _).
  assert (Hprobed : forall l, probed (Exec $"sudo" (hostRoute ip iface) noOptions :: l)
                    = probed l).
  { intros l. unfold hostRoute. by destruct (Js.includes Js.colon ip). }
  destruct (proc w (Info msg :: log) $"sudo" (hostRoute ip iface))
    as [c|e] eqn:Hproc.
  - destruct (Z.eq_dec c 0%Z) as [->|Hc].
    + exists [Exec $"sudo" (hostRoute ip iface) noOptions; Info msg], 1%nat.
      rewrite Nat.add_1_r.
      repeat split; try reflexivity; [apply Hprobed|].
      cbn [app failedCommands]. by rewrite Hproc.
    + eexists [_; Exec $"sudo" (hostRoute ip iface) noOptions; Info msg], 0%nat.
      rewrite Nat.add_0_r.
      repeat split; try (destruct c; done); [apply Hprobed|].
      cbn [app failedCommands]. rewrite Hproc. by destruct c.
  - eexists [_; Exec $"sudo" (hostRoute ip iface) noOptions; Info msg], 0%nat.
    rewrite Nat.add_0_r.
    repeat split; try reflexivity; [apply Hprobed|].
    cbn [app failedCommands]. by rewrite Hproc.
Qed.


Lemma addRoutesForIPs_loop iface ips n log :
  exists new k,
    for_of ips (Index.addIPRoute w iface) n log
      = (Returns (n + k)%nat, new ++ log)%list
    /\ commands new = rev (List.map (fun ip => ($"sudo", hostRoute ip iface)) ips)
    /\ failures new = []
    /\ probed new = []
    /\ (k + length (warnings new) = length ips)%nat
    /\ failedCommands w (new ++ log)
       = (length (warnings new) + failedCommands w log)%nat
    /\ exists kept,
         k = length kept
         /\ Tried w iface (literalNotice iface) log ips kept (new ++ log).
Proof.
  destruct (literal_loop_tried iface ips n log)
    as (kept & done & Htried_run & Htried).
  cut (exists new k,
    for_of ips (Index.addIPRoute w iface) n log
      = (Returns (n + k)%nat, new ++ log)%list
    /\ commands new = rev (List.map (fun ip => ($"sudo", hostRoute ip iface)) ips)
    /\ failures new = []
    /\ probed new = []
    /\ (k + length (warnings new) = length ips)%nat
    /\ failedCommands w (new ++ log)
       = (length (warnings new) + failedCommands w log)%nat).
  { intros (new & k & Hrun & Hrest). exists new, k. split; [done|].
    rewrite Hrun in Htried_run. injection Htried_run as Hk <-.
    do 5 (split; [tauto|]).
    exists kept. split; [lia|done]. }
  clear kept done Htried_run Htried.
  revert n log. induction ips as [|ip ips IH]; intros n log.
  - exists [], 0%nat. rewrite Nat.add_0_r. by repeat split.
  - destruct (addIPRoute_step iface ip n log)
      as (new1 & k1 & Hrun1 & Hcmd1 & Hfail1 & Hprobe1 & Hk1 & Hfc1).
    destruct (IH (n + k1)%nat (new1 ++ log)%list)
      as (new2 & k2 & Hrun2 & Hcmd2 & Hfail2 & Hprobe2 & Hk2 & Hfc2).
    exists (new2 ++ new1)%list, (k1 + k2)%nat.
    split; [|split; [|split; [|split; [|split]]]].
    + cbn [for_of]. unfold bind at 1. rewrite Hrun1, Hrun2.
      by rewrite Nat.add_assoc, app_assoc.
    + unfold commands in *. rewrite omap_app, Hcmd2, Hcmd1. done.
    + unfold failures in *. by rewrite omap_app, Hfail2, Hfail1.
    + unfold probed in *. by rewrite omap_app, Hprobe2, Hprobe1.
    + unfold warnings in *. rewrite omap_app, length_app. cbn [length]. lia.
    + unfold warnings in *. rewrite omap_app, length_app.
      rewrite <- app_assoc, Hfc2, Hfc1. lia.
Qed.


Lemma resolveDomainIPs_unfold domain :
  Index.resolveDomainIPs w domain
  = (ips <- boundedLookup (startLookup IPv4 (resolve4 w) domain)
              $"IPv4" domain [] ;;
     ips <- boundedLookup (startLookup IPv6 (resolve6 w) domain)
              $"IPv6" domain ips ;;
     ret ips).
Proof. reflexivity. Qed.

Lemma resolveDomainIPs_run domain log :
  exists new4 new6,
    let o4 := observe 5000 (resolve4 w log domain) in
    let mid := (new4 ++ Resolve IPv4 domain :: log)%list in
    let o6 := observe 5000 (resolve6 w mid domain) in
    Index.resolveDomainIPs w domain log
    = (Returns (contributes o4 ++ contributes o6)%list,
       (new6 ++ Resolve IPv6 domain :: mid)%list)
    /\ Surfaced o4 new4 /\ Surfaced o6 new6
    /\ probed new4 = [] /\ probed new6 = []
    /\ Forall (fun ms => ms <= 5000) (waits new4 ++ waits new6)
    /\ length (waits new4 ++ waits new6) = 2%nat.
Proof.
  rewrite resolveDomainIPs_unfold.
  destruct (boundedLookup_run IPv4 (resolve4 w) $"IPv4" domain [] log)
    as (new4 & Hrun4 & Hs4 & Hp4 & ms4 & Hw4 & Hms4).
  set (mid := (new4 ++ Resolve IPv4 domain :: log)%list) in *.
  destruct (boundedLookup_run IPv6 (resolve6 w) $"IPv6" domain
              ([] ++ contributes (observe 5000 (resolve4 w log domain))) mid)
    as (new6 & Hrun6 & Hs6 & Hp6 & ms6 & Hw6 & Hms6).
  exists new4, new6. cbn zeta. fold mid.
  split; [|split; [done|split; [done|split; [done|split; [done|split]]]]].
  - unfold bind at 1. rewrite Hrun4. unfold bind at 1. rewrite Hrun6. done.
  - rewrite Hw4, Hw6. by repeat constructor.
  - by rewrite Hw4, Hw6.
Qed.


Lemma RouteSucceeded_later iface log new ip :
  RouteSucceeded w iface log ip -> RouteSucceeded w iface (new ++ log) ip.
Proof.
  intros (before & Hsuf & Hok). exists before. split; [|done].
  by apply suffix_app_r.
Qed.

Lemma failedCommands_quiet new log :
  commands new = [] -> failedCommands w (new ++ log) = failedCommands w log.
Proof.
  induction new as [|e new IH]; [done|]. intros Hcmd.
  destruct e; try discriminate Hcmd; cbn in *; by apply IH.
Qed.

Lemma addDomainRoute_step domain iface ip st log :
  exists new applied,
    Index.addDomainRoute w domain iface ip st log
    = (Returns (Index.mkDomainLoop
                  (Index.routeCount st + length applied)
                  (Index.allIPs st ++ applied)), new ++ log)%list
    /\ applied `sublist_of` [ip]
    /\ Forall (RouteSucceeded w iface (new ++ log)) applied
    /\ commands new = [($"sudo", hostRoute ip iface)]
    /\ failures new = []
    /\ probed new = []
    /\ (failedCommands w (new ++ log) + length applied
        = 1 + failedCommands w log)%nat.
Proof.
  unfold Index.addDomainRoute, try_catch, bind, info, warning, emit.
  rewrite addSingleRoute_run.
  set (msg := $"Adding route for " +++ _).
  assert (Hprobed : forall l, probed (Exec $"sudo" (hostRoute ip iface) noOptions :: l)
                    = probed l).
  { intros l. unfold hostRoute. by destruct (Js.includes Js.colon ip). }
  destruct (proc w (Info msg :: log) $"sudo" (hostRoute ip iface))
    as [c|e] eqn:Hproc.
  - destruct (Z.eq_dec c 0%Z) as [->|Hc].
    + exists [Exec $"sudo" (hostRoute ip iface) noOptions; Info msg], [ip].
      cbn [length]. rewrite Nat.add_1_r.
      repeat split; try reflexivity.
      * repeat constructor. exists (Info msg :: log). split; [|done].
        by exists [].
      * apply Hprobed.
      * cbn [app failedCommands]. rewrite Hproc. cbn. lia.
    + assert (Hs : settle_exec w $"sudo" noOptions (Exited c)
                   = Rejected (exitFailure w $"sudo" c)) by (by destruct c).
      exists [Warning ($"Failed to add route for " +++ ip +++ $": "
                       +++ message (exitFailure w $"sudo" c));
              Exec $"sudo" (hostRoute ip iface) noOptions; Info msg], [].
      cbn [length]. rewrite Nat.add_0_r, app_nil_r.
      split; [destruct st; by destruct c|].
      split; [apply sublist_nil_l|]. split; [constructor|].
      split; [reflexivity|]. split; [reflexivity|]. split; [apply Hprobed|].
      cbn [app failedCommands]. rewrite Hproc, Hs. lia.
  - exists [Warning ($"Failed to add route for " +++ ip +++ $": "
                     +++ message e);
            Exec $"sudo" (hostRoute ip iface) noOptions; Info msg], [].
    cbn [length]. rewrite Nat.add_0_r, app_nil_r.
    split; [by destruct st|].
    split; [apply sublist_nil_l|]. split; [constructor|].
    split; [reflexivity|]. split; [reflexivity|]. split; [apply Hprobed|].
    cbn [app failedCommands]. rewrite Hproc. cbn. lia.
Qed.

Lemma addDomainRoute_loop domain iface ips st log :
  exists new applied,
    for_of ips (Index.addDomainRoute w domain iface) st log
    = (Returns (Index.mkDomainLoop
                  (Index.routeCount st + length applied)
                  (Index.allIPs st ++ applied)), new ++ log)%list
    /\ Tried w iface (domainNotice domain iface) log ips applied (new ++ log)
    /\ Forall (RouteSucceeded w iface (new ++ log)) applied
    /\ length (commands new) = length ips
    /\ failures new = []
    /\ probed new = []
    /\ (failedCommands w (new ++ log) + length applied
        = length ips + failedCommands w log)%nat.
Proof.
  destruct (domain_loop_tried domain iface ips st log)
    as (kept & done & Htried_run & Htried).
  cut (exists new applied,
    for_of ips (Index.addDomainRoute w domain iface) st log
    = (Returns (Index.mkDomainLoop
                  (Index.routeCount st + length applied)
                  (Index.allIPs st ++ applied)), new ++ log)%list
    /\ applied `sublist_of` ips
    /\ Forall (RouteSucceeded w iface (new ++ log)) applied
    /\ length (commands new) = length ips
    /\ failures new = []
    /\ probed new = []
    /\ (failedCommands w (new ++ log) + length applied
        = length ips + failedCommands w log)%nat).
  { intros (new & applied & Hrun & _ & Hrest). exists new, applied.
    split; [done|]. split; [|done].
    rewrite Hrun in Htried_run. injection Htried_run as _ Hall <-.
    apply app_inv_head in Hall as ->. done. }
  clear kept done Htried_run Htried.
  revert st log. induction ips as [|ip ips IH]; intros st log.
  - exists [], []. cbn. rewrite Nat.add_0_r, app_nil_r.
    destruct st. by repeat split.
  - destruct (addDomainRoute_step domain iface ip st log)
      as (new1 & app1 & Hrun1 & Hsub1 & Hok1 & Hcmd1 & Hfail1 & Hprobe1 & Hfc1).
    set (st1 := Index.mkDomainLoop _ _) in Hrun1.
    destruct (IH st1 (new1 ++ log)%list)
      as (new2 & app2 & Hrun2 & Hsub2 & Hok2 & Hcmd2 & Hfail2 & Hprobe2 & Hfc2).
    exists (new2 ++ new1)%list, (app1 ++ app2)%list.
    split; [|split; [|split; [|split; [|split; [|split]]]]].
    + cbn [for_of]. unfold bind at 1. rewrite Hrun1, Hrun2. subst st1. cbn.
      by rewrite length_app, Nat.add_assoc, !app_assoc.
    + change (ip :: ips) with ([ip] ++ ips)%list. by apply sublist_app.
    + rewrite <- app_assoc. apply Forall_app. split; [|done].
      eapply Forall_impl; [exact Hok1|]. intros x. apply RouteSucceeded_later.
    + unfold commands in *. rewrite omap_app, length_app, Hcmd2, Hcmd1.
      cbn. lia.
    + unfold failures in *. by rewrite omap_app, Hfail2, Hfail1.
    + unfold probed in *. by rewrite omap_app, Hprobe2, Hprobe1.
    + rewrite <- app_assoc, length_app. cbn [length]. lia.
Qed.


Lemma resolveDomainIPs_quiet domain log :
  exists resolved new,
    Index.resolveDomainIPs w domain log = (Returns resolved, new ++ log)%list
    /\ commands new = [] /\ failures new = [] /\ probed new = [].
Proof.
  destruct (resolveDomainIPs_run domain log)
    as (new4 & new6 & Hrun & (_ & Hc4 & Hf4 & _) & (_ & Hc6 & Hf6 & _)
        & Hp4 & Hp6 & _ & _).
  cbn zeta in Hrun. eexists _, (new6 ++ Resolve IPv6 domain :: new4
                                 ++ [Resolve IPv4 domain])%list.
  split.
  { rewrite Hrun. f_equal. rewrite <- app_assoc. cbn [app].
    by rewrite <- app_assoc. }
  repeat split; logs; rewrite ?Hc6, ?Hc4, ?Hf6, ?Hf4; try done.
  rewrite Hp6, (probed_cons _ (new4 ++ _)), probed_app, Hp4. done.
Qed.

Lemma addRoutesForDomains_loop iface domains st log :
  exists new perDomain,
    for_of domains
      (fun domain st =>
         info ($"Resolving " +++ domain +++ $"...") ;;
         ips <- Index.resolveDomainIPs w domain ;;
         for_of ips (Index.addDomainRoute w domain iface) st) st log
    = (Returns (Index.mkDomainLoop
                  (Index.routeCount st + length (concat perDomain))
                  (Index.allIPs st ++ concat perDomain)), new ++ log)%list
    /\ Batches w iface log domains perDomain (new ++ log)
    /\ Forall (RouteSucceeded w iface (new ++ log)) (concat perDomain)
    /\ failures new = []
    /\ probed new = []
    /\ (failedCommands w (new ++ log) + length (concat perDomain)
        = length (commands new) + failedCommands w log)%nat.
Proof.
  revert st log. induction domains as [|domain domains IH]; intros st log.
  - exists [], []. cbn. rewrite Nat.add_0_r, app_nil_r.
    destruct st. repeat split; try done. constructor.
  - set (msg := $"Resolving " +++ domain +++ $"...").
    destruct (resolveDomainIPs_quiet domain (Info msg :: log))
      as (resolved & newR & HrunR & HcmdR & HfailR & HprobeR).
    destruct (addDomainRoute_loop domain iface resolved st
                (newR ++ Info msg :: log)%list)
      as (new1 & app1 & Hrun1 & Hsub1 & Hok1 & Hcmd1 & Hfail1 & Hprobe1 & Hfc1).
    set (st1 := Index.mkDomainLoop _ _) in Hrun1.
    set (log1 := (new1 ++ newR ++ Info msg :: log)%list) in *.
    destruct (IH st1 log1)
      as (new2 & rest & Hrun2 & Hfrom2 & Hok2 & Hfail2 & Hprobe2 & Hfc2).
    exists (new2 ++ new1 ++ newR ++ [Info msg])%list, (app1 :: rest).
    assert (Hlog : ((new2 ++ new1 ++ newR ++ [Info msg]) ++ log
                    = new2 ++ log1)%list).
    { subst log1. by rewrite <- !app_assoc. }
    rewrite Hlog.
    assert (Hrun2' : for_of domains
      (fun domain st =>
         info ($"Resolving " +++ domain +++ $"...") ;;
         ips <- Index.resolveDomainIPs w domain ;;
         for_of ips (Index.addDomainRoute w domain iface) st) st1 log1
      = (Returns (Index.mkDomainLoop
                    (Index.routeCount st + length (concat (app1 :: rest)))
                    (Index.allIPs st ++ concat (app1 :: rest))),
         new2 ++ log1)%list).
    { rewrite Hrun2. subst st1. cbn.
      by rewrite length_app, Nat.add_assoc, !app_assoc. }
    split; [|split; [|split; [|split; [|split]]]].
    + cbn [for_of].
      erewrite bind_returns; [exact Hrun2'|].
      erewrite bind_returns; [|reflexivity].
      erewrite bind_returns; [|exact HrunR]. exact Hrun1.
    + by eapply Batches_domain.
    + cbn [concat]. apply Forall_app. split; [|done].
      eapply Forall_impl; [exact Hok1|]. intros x. apply RouteSucceeded_later.
    + unfold failures in *. rewrite !omap_app, Hfail2, Hfail1, HfailR. done.
    + unfold probed in *. rewrite !omap_app, Hprobe2, Hprobe1, HprobeR. done.
    + cbn [concat]. rewrite length_app.
      assert (Hq : failedCommands w (newR ++ Info msg :: log)
                   = failedCommands w log).
      { by rewrite failedCommands_quiet. }
      rewrite !commands_app, !length_app, HcmdR.
      change (commands [Info msg]) with (@nil (jsstring * list jsstring)).
      cbn [length]. subst log1. lia.
Qed.

Lemma addRoutesForDomains_run domains iface log :
  exists new perDomain,
    Index.addRoutesForDomains w domains iface log
    = (Returns (concat perDomain), new ++ log)%list
    /\ DomainBatch w iface log domains perDomain (new ++ log)
    /\ Forall (RouteSucceeded w iface (new ++ log)) (concat perDomain)
    /\ failures new = []
    /\ probed new = []
    /\ (failedCommands w (new ++ log) + length (concat perDomain)
        = length (commands new) + failedCommands w log)%nat
    /\ match domains with
       | [] => new = []
       | _ :: _ =>
           head new = Some (Info ($"Added "
                                  +++ Js.ofNat (length (concat perDomain))
                                  +++ $" route(s) for domains."))
       end.
Proof.
  unfold Index.addRoutesForDomains.
  destruct domains as [|domain domains].
  - exists [], []. by repeat split.
  - cbn [length Nat.eqb DomainBatch].
    set (msg := $"Adding routes for " +++ _).
    destruct (addRoutesForDomains_loop iface (domain :: domains)
                (Index.mkDomainLoop 0 []) (Info msg :: log))
      as (new & perDomain & Hrun & Hfrom & Hok & Hfail & Hprobe & Hfc).
    cbn [Index.routeCount Index.allIPs Nat.add app] in Hrun.
    eexists (_ :: new ++ [Info msg])%list, perDomain.
    split; [|split; [|split; [|split; [|split; [|split]]]]].
    + erewrite bind_returns; [|reflexivity].
      erewrite bind_returns; [|exact Hrun].
      cbn. by rewrite <- app_assoc.
    + exists (new ++ Info msg :: log)%list. split; [done|].
      cbn [app]. by rewrite <- app_assoc.
    + cbn [app]. rewrite <- app_assoc. cbn [app].
      eapply Forall_impl; [exact Hok|]. intros x.
      apply (RouteSucceeded_later iface _ [_]).
    + logs. by rewrite Hfail.
    + rewrite probed_cons, probed_app, Hprobe. done.
    + cbn [app]. rewrite <- app_assoc. cbn [app failedCommands].
      logs. rewrite length_app.
      cbn [length failedCommands] in *. lia.
    + done.
Qed.

Lemma addRoutesForIPs_run ips iface log :
  exists new k,
    Index.addRoutesForIPs w ips iface log = (Returns tt, new ++ log)%list
    /\ commands new
       = rev (List.map (fun ip => ($"sudo", hostRoute ip iface)) ips)
    /\ failures new = []
    /\ probed new = []
    /\ (k + length (warnings new) = length ips)%nat
    /\ failedCommands w (new ++ log)
       = (length (warnings new) + failedCommands w log)%nat
    /\ match ips with
       | [] => new = []
       | _ :: _ =>
           head new = Some (Info ($"Added " +++ Js.ofNat k
                                  +++ $" route(s) for IPs."))
       end
    /\ exists kept,
         k = length kept /\ LiteralBatch w iface log ips kept (new ++ log).
Proof.
  unfold Index.addRoutesForIPs.
  destruct ips as [|ip ips].
  - exists [], 0%nat. repeat split; try done. by exists [].
  - cbn [length Nat.eqb LiteralBatch].
    set (msg := $"Adding routes for " +++ _).
    destruct (addRoutesForIPs_loop iface (ip :: ips) 0%nat (Info msg :: log))
      as (new & k & Hrun & Hcmd & Hfail & Hprobe & Hk & Hfc & kept & -> & Htried).
    cbn [Nat.add] in Hrun.
    eexists (_ :: new ++ [Info msg])%list, (length kept).
    split; [|split; [|split; [|split; [|split; [|split; [|split]]]]]];
      [| | | | | | |
       exists kept; split; [done|];
       exists (new ++ Info msg :: log)%list; split; [done|];
       cbn [app]; by rewrite <- app_assoc].
    + erewrite bind_returns; [|reflexivity].
      erewrite bind_returns; [|exact Hrun].
      cbn. by rewrite <- app_assoc.
    + logs. rewrite Hcmd. by rewrite app_nil_r.
    + logs. by rewrite Hfail.
    + rewrite probed_cons, probed_app, Hprobe. done.
    + logs. by rewrite app_nil_r.
    + logs. rewrite app_nil_r. cbn [app]. rewrite <- app_assoc.
      cbn [app failedCommands]. done.
    + done.
Qed.


Lemma addRoutes_run domains ips iface log :
  exists new perDomain,
    Index.addRoutes w domains ips iface log
    = (Returns (concat perDomain ++ ips), new ++ log)%list
    /\ (exists mid kept,
          DomainBatch w iface log domains perDomain mid
          /\ LiteralBatch w iface mid ips kept (new ++ log))
    /\ Forall (RouteSucceeded w iface (new ++ log)) (concat perDomain)
    /\ failures new = []
    /\ probed new = [].
Proof.
  destruct (addRoutesForDomains_run domains iface log)
    as (newD & perDomain & HrunD & Hfrom & Hok & HfailD & HprobeD & _).
  destruct (addRoutesForIPs_run ips iface (newD ++ log)%list)
    as (newI & k & HrunI & _ & HfailI & HprobeI & _ & _ & _ & kept & _ & Hlit).
  exists (newI ++ newD)%list, perDomain.
  split; [|split; [exists (newD ++ log)%list, kept; by rewrite <- app_assoc
                  |split; [|split]]].
  - unfold Index.addRoutes.
    erewrite bind_returns; [|exact HrunD].
    erewrite bind_returns; [|exact HrunI].
    by rewrite app_assoc.
  - rewrite <- app_assoc. eapply Forall_impl; [exact Hok|].
    intros x. apply RouteSucceeded_later.
  - logs. by rewrite HfailI, HfailD.
  - logs. by rewrite HprobeI, HprobeD.
Qed.

Lemma pingOne_step ip log :
  exists new,
    Index.pingOne w ip tt log = (Returns tt, new ++ log)%list
    /\ probed new = [ip]
    /\ failures new = []
    /\ Forall (fun ms => ms <= 10000) (waits new).
Proof.
  unfold Index.pingOne, exec_start, raceOrReject.
  set (pingCmd := if Js.includes Js.colon ip then $"ping6" else $"ping").
  set (args := [$"-c"; $"2"; $"-W"; $"3"; ip]).
  set (opts := mkOpts true false).
  assert (Hprobed : probed [Exec pingCmd args opts] = [ip]).
  { subst pingCmd. by destruct (Js.includes Js.colon ip). }
  run_async.
  set (msg := $"Pinging " +++ ip +++ $"...").
  destruct (procTimed w (Info msg :: log) pingCmd args) as [ms p|];
    cbn [timed_map].
  - destruct (N.ltb_spec ms 10000); run_async.
    + destruct (settle_exec w pingCmd opts p) as [c|e].
      * exists [Waited ms; Exec pingCmd args opts; Info msg].
        split; [done|]. split; [|split; [done|]].
        -- by rewrite !probed_cons2, Hprobed.
        -- logs. repeat constructor. lia.
      * eexists [_; Waited ms; Exec pingCmd args opts; Info msg].
        split; [done|]. split; [|split; [done|]].
        -- by rewrite !probed_cons2, Hprobed.
        -- logs. repeat constructor. lia.
    + eexists [_; Waited 10000; Exec pingCmd args opts; Info msg].
      split; [done|]. split; [|split; [done|]].
      * by rewrite !probed_cons2, Hprobed.
      * logs. by repeat constructor.
  - run_async.
    eexists [_; Waited 10000; Exec pingCmd args opts; Info msg].
    split; [done|]. split; [|split; [done|]].
    + by rewrite !probed_cons2, Hprobed.
    + logs. by repeat constructor.
Qed.

Lemma pingOne_loop ips log :
  exists new,
    for_of ips (Index.pingOne w) tt log = (Returns tt, new ++ log)%list
    /\ probed new = rev ips
    /\ failures new = []
    /\ Forall (fun ms => ms <= 10000) (waits new).
Proof.
  revert log. induction ips as [|ip ips IH]; intros log.
  - by exists [].
  - destruct (pingOne_step ip log) as (new1 & Hrun1 & Hp1 & Hf1 & Hw1).
    destruct (IH (new1 ++ log)%list) as (new2 & Hrun2 & Hp2 & Hf2 & Hw2).
    exists (new2 ++ new1)%list. split; [|split; [|split]].
    + cbn [for_of]. erewrite bind_returns; [|exact Hrun1].
      by rewrite Hrun2, app_assoc.
    + logs. by rewrite Hp2, Hp1.
    + logs. by rewrite Hf2, Hf1.
    + logs. by apply Forall_app.
Qed.

Lemma testConnectivity_run ips log :
  exists new,
    Index.testConnectivity w ips log = (Returns tt, new ++ log)%list
    /\ probed new = rev (take 3 ips)
    /\ failures new = []
    /\ Forall (fun ms => ms <= 10000) (waits new).
Proof.
  unfold Index.testConnectivity. destruct ips as [|ip ips].
  - by exists [].
  - cbn [length Nat.eqb].
    set (msg := $"Testing connectivity to routed IPs...").
    destruct (pingOne_loop (take 3 (ip :: ips)) (Info msg :: log))
      as (new & Hrun & Hp & Hf & Hw).
    exists (new ++ [Info msg])%list. split; [|split; [|split]].
    + erewrite bind_returns; [|reflexivity].
      by rewrite Hrun, <- app_assoc.
    + logs. by rewrite Hp, app_nil_r.
    + logs. by rewrite Hf.
    + logs. by rewrite app_nil_r.
Qed.

End IndexFacts.

(* ===================================================================== *)
(** ** Input Normalizer: properties *)
(* ===================================================================== *)

Lemma parseInputList_join (fields : list jsstring) :
  Forall (sepFree Js.comma) fields ->
  parseInputList (Js.join Js.comma fields)
  = List.filter Js.truthy (List.map Js.trim fields).
Proof.
  intros Hfree. destruct fields as [|f rest]; [done|].
  unfold parseInputList. by rewrite split_join.
Qed.

(** C8. The input is cut at its commas; each piece is trimmed (the
    white space at both ends goes, nothing else), the pieces that are then
    empty are dropped and the others are kept in their order, repeated
    ones included. Every input is such a sequence of pieces, and the empty
    input gives the empty list. *)
Theorem parseInputList_tokens (fields : list jsstring) :
  Forall (sepFree Js.comma) fields ->
  parseInputList (Js.join Js.comma fields)
    = List.filter Js.truthy (List.map Js.trim fields)
  /\ Forall (fun f => TrimOf f (Js.trim f)) fields
  /\ (forall input, exists fs,
        Forall (sepFree Js.comma) fs /\ input = Js.join Js.comma fs)
  /\ parseInputList [] = [].
Proof.
  intros Hfree. repeat split.
  - by apply parseInputList_join.
  - apply Forall_forall. intros f _. apply trim_spec.
  - intros input. exists (Js.split Js.comma input). split.
    + apply split_sepFree.
    + symmetry. apply join_split.
Qed.

Lemma parseInputList_tokens_witness :
  Forall (sepFree Js.comma) [$" a"; $"b "; $""; $"  "; $"a"]
  /\ parseInputList $" a,b ,,  ,a" = [$"a"; $"b"; $"a"].
Proof.
  assert (H : Forall (sepFree Js.comma) [$" a"; $"b "; $""; $"  "; $"a"])
    by (repeat constructor).
  split; [exact H|].
  exact (proj1 (parseInputList_tokens _ H)).
Defined.

(** C9, against the code: [a,a] is normalized to [a; a]. *)
Lemma parseInputList_repeats : ~ (forall input, NoDup (parseInputList input)).
Proof.
  intros H. specialize (H $"a,a").
  change (NoDup [$"a"; $"a"]) in H.
  apply NoDup_cons in H as [Hin _]. apply Hin. by left.
Qed.

Lemma filter_eqb_truthy tok l :
  Js.truthy tok = true ->
  List.filter (Js.eqb tok) (List.filter Js.truthy l) = List.filter (Js.eqb tok) l.
Proof.
  intros Htok. induction l as [|t l IH]; [done|]. simpl.
  destruct (Js.truthy t) eqn:Ht; simpl; rewrite IH; [done|].
  unfold Js.eqb. case_bool_decide; [|done]. congruence.
Qed.

(** C9, as the code has it. Nothing is de-duplicated: a token occurs in
    the result as often as there are pieces of the input that are trimmed
    to it. *)
Theorem parseInputList_multiplicity (fields : list jsstring) (tok : jsstring) :
  Forall (sepFree Js.comma) fields ->
  Js.truthy tok = true ->
  occurrences tok (parseInputList (Js.join Js.comma fields))
    = occurrences tok (List.map Js.trim fields).
Proof.
  intros Hfree Htok. unfold occurrences.
  rewrite (parseInputList_join fields Hfree).
  by rewrite filter_eqb_truthy.
Qed.

Lemma parseInputList_multiplicity_witness :
  Forall (sepFree Js.comma) [$"a"; $" b"; $"a "; $""; $"a"]
  /\ Js.truthy $"a" = true
  /\ occurrences $"a" (parseInputList $"a, b,a ,,a") = 3%nat.
Proof.
  assert (H : Forall (sepFree Js.comma) [$"a"; $" b"; $"a "; $""; $"a"])
    by (repeat constructor).
  split; [exact H|]. split; [reflexivity|].
  exact (parseInputList_multiplicity _ $"a" H eq_refl).
Defined.

Lemma trimStart_fixed (t : jsstring) :
  from_option Js.isWhiteSpace false (head t) = false -> Js.trimStart t = t.
Proof. destruct t as [|c t]; [done|]. cbn. by intros ->. Qed.

Lemma trim_fixed (t : jsstring) :
  from_option Js.isWhiteSpace false (head t) = false ->
  from_option Js.isWhiteSpace false (last t) = false ->
  Js.trim t = t.
Proof.
  intros Hhd Hlast. unfold Js.trim, Js.trimEnd.
  rewrite (trimStart_fixed t Hhd), trimStart_fixed; [apply rev_involutive|].
  by rewrite <- last_rev, rev_involutive.
Qed.

Lemma includes_app c (a b : jsstring) :
  Js.includes c (a ++ b) = Js.includes c a || Js.includes c b.
Proof. apply existsb_app. Qed.

Lemma trim_normal (f : jsstring) :
  sepFree Js.comma f -> Js.trim f <> [] -> NormalToken (Js.trim f).
Proof.
  intros Hfree Hne.
  destruct (trim_spec f) as (pre & post & Hf & _ & _ & Hhd & Hlast).
  split; [done|]. split; [|by apply trim_fixed].
  unfold sepFree in *. rewrite Hf, !includes_app in Hfree.
  apply orb_false_elim in Hfree as [_ Hfree].
  by apply orb_false_elim in Hfree as [Hfree _].
Qed.

Lemma parseInputList_normal (input : jsstring) :
  Forall NormalToken (parseInputList input).
Proof.
  unfold parseInputList. apply Forall_forall. intros t Hin.
  apply list_elem_of_In, filter_In in Hin as [Hin Ht].
  apply in_map_iff in Hin as (f & <- & Hf).
  apply trim_normal.
  - pose proof (split_sepFree Js.comma input) as Hall.
    rewrite Forall_forall in Hall. by apply Hall, list_elem_of_In.
  - by destruct (Js.trim f).
Qed.

(** Normalizing is a normal form: each token of the result is not empty,
    has no comma and no white space at its ends, and the result joined by
    commas is normalized to itself. *)
Theorem parseInputList_stable (input : jsstring) :
  Forall NormalToken (parseInputList input)
  /\ parseInputList (Js.join Js.comma (parseInputList input))
     = parseInputList input.
Proof.
  pose proof (parseInputList_normal input) as Hall.
  split; [done|].
  rewrite parseInputList_join.
  - induction Hall as [|t toks (Hne & _ & Htrim) _ IH]; [done|].
    cbn [List.map List.filter]. rewrite Htrim, IH. by destruct t.
  - eapply Forall_impl; [exact Hall|]. by intros t (_ & Hfree & _).
Qed.

(* ===================================================================== *)
(** ** What the functions of index.ts may leave in the log *)
(* ===================================================================== *)

Lemma Emits_weaken {A} (P Q : Event -> Prop) (m : Async A) :
  (forall e, P e -> Q e) -> Emits P m -> Emits Q m.
Proof.
  intros HPQ Hm log. destruct (Hm log) as (new & Hlog & Hnew).
  exists new. split; [done|]. eapply Forall_impl; eauto.
Qed.

Lemma Emits_failures {A} (m : Async A) log :
  Emits NotFailure m -> failures (snd (m log)) = failures log.
Proof.
  intros Hm. destruct (Hm log) as (new & -> & Hnew).
  rewrite failures_app. replace (failures new) with (@nil jsstring); [done|].
  induction Hnew as [|e new He _ IH]; [done|].
  rewrite failures_cons. by destruct e.
Qed.

(** Walks through a program and leaves one goal per event it can emit. *)
Ltac emits_with known :=
  repeat first
    [ known
    | apply Emits_ret | apply Emits_throw | apply Emits_history
    | apply Emits_bind; [|intros ?]
    | apply Emits_try_catch; [|intros ?]
    | apply Emits_for_of; intros ? ?
    | apply Emits_emit
    | match goal with
      | |- Emits _ (if ?b then _ else _) => destruct b
      | |- Emits _ (match ?x with _ => _ end) => destruct x
      end ].

Ltac emits := emits_with fail.

Section Footprint.
Variable w : World.
Variable P : Event -> Prop.

Lemma exec_exec_emits tool args opts :
  P (Exec tool args opts) -> Emits P (exec_exec w tool args opts).
Proof. intros H. unfold exec_exec. emits. exact H. Qed.

Lemma resolveWithTimeout_emits {T} (p : Timed (Settled T)) ms :
  (forall t, P (Waited t)) -> Emits P (resolveWithTimeout p ms).
Proof. intros H. unfold resolveWithTimeout. emits; apply H. Qed.

Lemma getInput_emits name required : Emits P (getInput w name required).
Proof. unfold getInput. emits. Qed.

Hypothesis P_info : forall msg, P (Info msg).
Hypothesis P_warning : forall msg, P (Warning msg).
Hypothesis P_waited : forall ms, P (Waited ms).
Hypothesis P_resolve : forall family domain, P (Resolve family domain).
Hypothesis P_route :
  forall ip iface, P (Exec $"sudo" (hostRoute ip iface) noOptions).

Lemma addSingleRoute_emits ip iface : Emits P (Index.addSingleRoute w ip iface).
Proof.
  intros log. rewrite addSingleRoute_run. eexists [_]. split; [done|].
  repeat constructor. apply P_route.
Qed.

Lemma resolveDomainIPs_emits domain : Emits P (Index.resolveDomainIPs w domain).
Proof.
  unfold Index.resolveDomainIPs, dns_resolve4, dns_resolve6, info, warning.
  emits_with ltac:(by apply resolveWithTimeout_emits); auto.
Qed.

Lemma addRoutes_emits domains ips iface :
  Emits P (Index.addRoutes w domains ips iface).
Proof.
  unfold Index.addRoutes, Index.addRoutesForDomains, Index.addRoutesForIPs,
    Index.addDomainRoute, Index.addIPRoute, info, warning.
  emits_with ltac:(first [ apply resolveDomainIPs_emits
                         | apply addSingleRoute_emits ]); auto.
Qed.

Hypothesis P_ping :
  forall ip opts, P (Exec $"ping" [$"-c"; $"2"; $"-W"; $"3"; ip] opts).
Hypothesis P_ping6 :
  forall ip opts, P (Exec $"ping6" [$"-c"; $"2"; $"-W"; $"3"; ip] opts).

Lemma testConnectivity_emits ips : Emits P (Index.testConnectivity w ips).
Proof.
  unfold Index.testConnectivity, Index.pingOne, exec_start, raceOrReject,
    info, warning.
  emits; auto; destruct (Js.includes Js.colon _); auto.
Qed.

Hypothesis P_sudo :
  forall first rest opts,
    Js.eqb first $"ip" = false -> P (Exec $"sudo" (first :: rest) opts).
Hypothesis P_files :
  forall e,
    match e with
    | Mkdtemp _ | WriteFile _ _ _ | MkdirP _ => P e
    | _ => True
    end.

Lemma setupWireGuard_emits config iface stripDns :
  Emits P (Index.setupWireGuard w config iface stripDns).
Proof.
  unfold Index.setupWireGuard, Index.installWireGuard,
    Index.setupWireGuardConfig, Index.startWireGuardInterface,
    fs_mkdtemp, fs_writeFile, io_mkdirP, settle, sleep, info.
  emits_with ltac:(apply exec_exec_emits; by apply P_sudo); auto;
    first [ apply (P_files (Mkdtemp _)) | apply (P_files (WriteFile _ _ _))
          | apply (P_files (MkdirP _)) ].
Qed.

Lemma handleAddRouteMode_emits domains ips iface :
  Emits P (Index.handleAddRouteMode w domains ips iface).
Proof.
  unfold Index.handleAddRouteMode, info, warning.
  emits_with ltac:(first [ apply addRoutes_emits
                         | apply testConnectivity_emits ]); auto.
Qed.

Lemma handleSetupMode_emits config domains ips iface stripDns :
  Emits P (Index.handleSetupMode w config domains ips iface stripDns).
Proof.
  unfold Index.handleSetupMode, info.
  emits_with ltac:(first [ apply addRoutes_emits
                         | apply testConnectivity_emits
                         | apply setupWireGuard_emits ]); auto.
Qed.

Hypothesis P_link :
  forall iface opts, P (Exec $"ip" [$"link"; $"show"; iface] opts).
Hypothesis P_failed : forall msg, P (SetFailed msg).

Lemma run_emits : Emits P (Index.run w).
Proof.
  unfold Index.run, Index.checkInterfaceExists, exec_getExecOutput, setFailed.
  emits_with ltac:(first [ apply handleAddRouteMode_emits
                         | apply handleSetupMode_emits
                         | apply getInput_emits
                         | by apply exec_exec_emits ]); auto.
Qed.

End Footprint.

Lemma HostRouteOnly_route ip iface :
  HostRouteOnly (Exec $"sudo" (hostRoute ip iface) noOptions).
Proof.
  unfold HostRouteOnly, hostRoute.
  destruct (Js.includes Js.colon ip) eqn:Hip; cbn; exists ip, iface;
    unfold hostRoute; by rewrite Hip.
Qed.

Lemma HostRouteOnly_sudo first rest opts :
  Js.eqb first $"ip" = false -> HostRouteOnly (Exec $"sudo" (first :: rest) opts).
Proof.
  intros H. unfold HostRouteOnly, isRouteOperation. rewrite H.
  by rewrite andb_false_r.
Qed.

Lemma run_host_routes_only w : Emits HostRouteOnly (Index.run w).
Proof.
  apply run_emits; try done.
  - apply HostRouteOnly_route.
  - apply HostRouteOnly_sudo.
  - by intros [].
Qed.

Lemma addRoutes_no_failure w domains ips iface :
  Emits NotFailure (Index.addRoutes w domains ips iface).
Proof. by apply addRoutes_emits. Qed.

Lemma setupWireGuard_no_failure w config iface stripDns :
  Emits NotFailure (Index.setupWireGuard w config iface stripDns).
Proof. apply setupWireGuard_emits; try done. by intros []. Qed.

(* ===================================================================== *)
(** ** The two modes and [run] *)
(* ===================================================================== *)

Lemma Emits_NotFailure_inv {A} (m : Async A) log c log' :
  Emits NotFailure m -> m log = (c, log') ->
  exists new, log' = (new ++ log)%list /\ failures new = [].
Proof.
  intros Hm Hrun. destruct (Hm log) as (new & Hlog & Hnew).
  rewrite Hrun in Hlog. exists new. split; [done|].
  clear -Hnew. induction Hnew as [|e new He _ IH]; [done|].
  rewrite failures_cons. by destruct e.
Qed.

Lemma getInput_optional w name log :
  getInput w name false log
  = (Returns (Js.trim (default [] (inputs w !! name))), log).
Proof. reflexivity. Qed.

Lemma getInput_required w name log :
  getInput w name true log
  = (if Js.truthy (default [] (inputs w !! name))
     then Returns (Js.trim (default [] (inputs w !! name)))
     else Throws (Error ($"Input required and not supplied: " +++ name)),
     log).
Proof.
  unfold getInput. by destruct (Js.truthy (default [] (inputs w !! name))).
Qed.

Lemma Tried_suffix w iface notice log ips kept done :
  Tried w iface notice log ips kept done -> log `suffix_of` done.
Proof.
  induction 1 as [log|log ip ips kept done _ _ IH
                 |log ip ips kept done err _ _ IH].
  - done.
  - etrans; [|exact IH]. by eexists [_; _].
  - etrans; [|exact IH]. by eexists [_; _; _].
Qed.

Lemma LiteralBatch_suffix w iface log ips kept final :
  LiteralBatch w iface log ips kept final -> log `suffix_of` final.
Proof.
  unfold LiteralBatch. destruct ips as [|ip ips].
  - by intros [_ ->].
  - intros (done & Htried & ->). apply Tried_suffix in Htried.
    apply suffix_cons_r. etrans; [|exact Htried]. by apply suffix_cons_r.
Qed.

Section Modes.
Variable w : World.

Lemma probe_after_routes allIPs log :
  exists new,
    (if (0 <? length allIPs)%nat then Index.testConnectivity w allIPs
     else ret tt) log = (Returns tt, new ++ log)%list
    /\ probed new = rev (take 3 allIPs)
    /\ failures new = [].
Proof.
  destruct allIPs as [|ip rest].
  - by exists [].
  - cbn [length Nat.ltb Nat.leb].
    destruct (testConnectivity_run w (ip :: rest) log)
      as (new & Hrun & Hp & Hf & _).
    by exists new.
Qed.

Lemma handleAddRouteMode_run domains ips iface log :
  exists new perDomain,
    Index.handleAddRouteMode w domains ips iface log
    = (Returns tt, new ++ log)%list
    /\ failures new = []
    /\ (exists mid,
          DomainBatch w iface
            (Info ($"WireGuard interface '" +++ iface
                   +++ $"' already exists. Adding routes...") :: log)
            domains perDomain mid
          /\ mid `suffix_of` (new ++ log)%list)
    /\ probed new = rev (take 3 (concat perDomain ++ ips)).
Proof.
  unfold Index.handleAddRouteMode.
  set (hello := $"WireGuard interface '" +++ _).
  destruct domains as [|domain domains], ips as [|ip ips];
    cbn [length Nat.eqb andb].
  1: { eexists [_; Info hello], [].
       split; [done|]. split; [done|]. split; [|done].
       exists (Info hello :: log). split; [done|]. by eexists [_]. }
  all: match goal with
       | |- context [Index.addRoutes _ ?ds ?ls _] =>
           destruct (addRoutes_run w ds ls iface (Info hello :: log))
             as (newR & perDomain & HrunR & (mid & kept & Hdom & Hlit) & _
                 & HfR & HpR);
           destruct (probe_after_routes (concat perDomain ++ ls)
                       (newR ++ Info hello :: log)%list)
             as (newP & HrunP & HpP & HfP)
       end;
    eexists (_ :: newP ++ newR ++ [Info hello])%list, perDomain;
    (split; [|split; [|split]]);
    [ erewrite bind_returns; [|reflexivity];
      erewrite bind_returns; [|exact HrunR];
      erewrite bind_returns; [|exact HrunP];
      cbn; by rewrite <- !app_assoc
    | logs; by rewrite HfP, HfR
    | exists mid; split; [done|];
      apply LiteralBatch_suffix in Hlit;
      etrans; [exact Hlit|];
      eexists (_ :: newP)%list; cbn; by rewrite <- !app_assoc
    | rewrite probed_cons, !probed_app, HpP, HpR; by rewrite app_nil_r ].
Qed.

Lemma setupWireGuard_settles config iface stripDns log :
  fst (Index.setupWireGuard w config iface stripDns log) <> Hangs.
Proof.
  revert log.
  change (Settles (Index.setupWireGuard w config iface stripDns)).
  assert (Hexec : forall tool args opts, Settles (exec_exec w tool args opts)).
  { intros tool args opts log. rewrite exec_exec_run.
    by destruct (settle_exec w tool opts _). }
  assert (Hemit : forall e, Settles (emit e)) by (by intros e log).
  assert (Hhist : Settles history) by (by intros log).
  unfold Index.setupWireGuard, Index.installWireGuard,
    Index.setupWireGuardConfig, Index.startWireGuardInterface,
    fs_mkdtemp, fs_writeFile, io_mkdirP, sleep, info.
  repeat first
    [ apply Hexec | apply Hemit | apply Hhist | apply Settles_ret
    | apply Settles_settle
    | apply Settles_bind; [|intros ?]
    | match goal with |- Settles (if ?b then _ else _) => destruct b end ].
Qed.

Lemma handleSetupMode_run config domains ips iface stripDns log :
  match Index.setupWireGuard w config iface stripDns
          (Info $"Setting up WireGuard interface..." :: log) with
  | (Returns _, log1) =>
      exists new perDomain,
        Index.handleSetupMode w config domains ips iface stripDns log
        = (Returns tt, new ++ log1)%list
        /\ failures new = []
        /\ (exists mid,
              DomainBatch w iface log1 domains perDomain mid
              /\ mid `suffix_of` (new ++ log1)%list)
        /\ probed new = rev (take 3 (concat perDomain ++ ips))
  | (Throws e, log1) =>
      Index.handleSetupMode w config domains ips iface stripDns log
      = (Throws e, log1)
  | (Hangs, _) => False
  end.
Proof.
  pose proof (setupWireGuard_settles config iface stripDns
                (Info $"Setting up WireGuard interface..." :: log)) as Hs.
  unfold Index.handleSetupMode.
  destruct (Index.setupWireGuard w config iface stripDns _)
    as [[[]|e|] log1] eqn:Hsetup; [| |done].
  - destruct (addRoutes_run w domains ips iface log1)
      as (newR & perDomain & HrunR & (mid & kept & Hdom & Hlit) & _
          & HfR & HpR).
    destruct (probe_after_routes (concat perDomain ++ ips)
                (newR ++ log1)%list) as (newP & HrunP & HpP & HfP).
    eexists (_ :: newP ++ newR)%list, perDomain.
    split; [|split; [|split]].
    + erewrite bind_returns; [|reflexivity].
      erewrite bind_returns; [|exact Hsetup].
      erewrite bind_returns; [|exact HrunR].
      erewrite bind_returns; [|exact HrunP].
      cbn. by rewrite <- !app_assoc.
    + logs. by rewrite HfP, HfR.
    + exists mid. split; [done|].
      apply LiteralBatch_suffix in Hlit.
      etrans; [exact Hlit|].
      eexists (_ :: newP)%list. cbn. by rewrite <- !app_assoc.
    + rewrite probed_cons, !probed_app, HpP, HpR. by rewrite app_nil_r.
  - erewrite bind_returns; [|reflexivity].
    by erewrite bind_throws; [|exact Hsetup].
Qed.

End Modes.

Lemma checkInterfaceExists_no_failure w iface :
  Emits NotFailure (Index.checkInterfaceExists w iface).
Proof.
  unfold Index.checkInterfaceExists, exec_getExecOutput.
  emits_with ltac:(by apply exec_exec_emits).
Qed.

Lemma run_outcome w log :
  exists new,
    Index.run w log = (Returns tt, new ++ log)%list
    /\ failures new = verdict w log.
Proof.
  unfold Index.run, verdict, try_catch.
  destruct (negb (Js.eqb (platform w) $"linux")).
  { by eexists [_]. }
  erewrite bind_returns; [|apply getInput_optional].
  erewrite bind_returns; [|apply getInput_optional].
  erewrite bind_returns; [|apply getInput_optional].
  erewrite bind_returns; [|apply getInput_optional].
  fold (ifaceOf w).
  set (domains := parseInputList _). set (ips := parseInputList _).
  set (stripDns := negb _).
  destruct (Index.checkInterfaceExists w (ifaceOf w) log)
    as [[[|]|e|] log1] eqn:Hchk;
    destruct (Emits_NotFailure_inv _ _ _ _
                (checkInterfaceExists_no_failure w (ifaceOf w)) Hchk)
      as (newC & -> & HfC).
  - destruct (handleAddRouteMode_run w domains ips (ifaceOf w) (newC ++ log)%list)
      as (newH & perDomain & HrunH & HfH & _).
    erewrite bind_returns; [|exact Hchk]. cbn beta iota. rewrite HrunH.
    exists (newH ++ newC)%list. split; [by rewrite app_assoc|].
    logs. by rewrite HfH, HfC.
  - erewrite bind_returns; [|exact Hchk]. cbn beta iota.
    rewrite getInput_required.
    destruct (Js.truthy (default [] (inputs w !! $"config"))) eqn:Hcfg.
    + erewrite bind_returns; [|by rewrite getInput_required, Hcfg].
      set (config := Js.trim _).
      pose proof (handleSetupMode_run w config domains ips (ifaceOf w)
                    stripDns (newC ++ log)%list) as Hmode.
      destruct (Index.setupWireGuard w config (ifaceOf w) stripDns _)
        as [[[]|e|] log2] eqn:Hsetup; [| |done].
      * destruct (Emits_NotFailure_inv _ _ _ _
                    (setupWireGuard_no_failure w config (ifaceOf w) stripDns)
                    Hsetup) as (newS & -> & HfS).
        destruct Hmode as (newH & perDomain & HrunH & HfH & _).
        rewrite HrunH. cbn [fst].
        exists (newH ++ newS ++ [Info $"Setting up WireGuard interface..."]
                ++ newC)%list.
        split; [by rewrite <- !app_assoc|].
        logs. by rewrite HfH, HfS, HfC.
      * destruct (Emits_NotFailure_inv _ _ _ _
                    (setupWireGuard_no_failure w config (ifaceOf w) stripDns)
                    Hsetup) as (newS & -> & HfS).
        rewrite Hmode. cbn [fst].
        eexists (_ :: newS ++ [Info $"Setting up WireGuard interface..."]
                 ++ newC)%list.
        split; [cbn; by rewrite <- !app_assoc|].
        logs. by rewrite HfS, HfC.
    + erewrite bind_throws; [|by rewrite getInput_required, Hcfg].
      eexists (_ :: newC)%list. split; [done|].
      logs. by rewrite HfC.
  - erewrite bind_throws; [|exact Hchk].
    eexists (_ :: newC)%list. split; [done|].
    logs. by rewrite HfC.
  - exfalso. revert Hchk. unfold Index.checkInterfaceExists, exec_getExecOutput.
    unfold bind at 1. rewrite exec_exec_run.
    by destruct (settle_exec w _ _ _).
Qed.

(* ===================================================================== *)
(** ** The resolver of the earlier variants *)
(* ===================================================================== *)

Lemma awaitedLookup_run family oracle domain handler ips log :
  awaitedLookup (startLookup family oracle domain) handler ips log
  = match oracle log domain with
    | After ms (Fulfilled addrs) =>
        (Returns (ips ++ addrs)%list,
         Waited ms :: Resolve family domain :: log)
    | After ms (Rejected e) =>
        handler e (Waited ms :: Resolve family domain :: log)
    | Never => (Hangs, Resolve family domain :: log)
    end.
Proof.
  unfold awaitedLookup, startLookup, await. run_async.
  by destruct (oracle log domain) as [ms [addrs|e]|].
Qed.

Lemma part000_unfold w domain :
  Part000.resolveDomainIPs w domain
  = (ips <- awaitedLookup (startLookup IPv4 (resolve4 w) domain)
              (filteredHandler $"IPv4" domain []) [] ;;
     ips <- awaitedLookup (startLookup IPv6 (resolve6 w) domain)
              (filteredHandler $"IPv6" domain ips) ips ;;
     ret ips)%async.
Proof. reflexivity. Qed.

Lemma filtered_lookup_run family oracle fam domain ips log :
  match oracle log domain with
  | Never =>
      awaitedLookup (startLookup family oracle domain)
        (filteredHandler fam domain ips) ips log
      = (Hangs, Resolve family domain :: log)
  | After ms s =>
      exists new,
        waits new = [ms]
        /\ WarnsUnlessNoRecord s new
        /\ awaitedLookup (startLookup family oracle domain)
             (filteredHandler fam domain ips) ips log
           = (Returns (ips ++ answers s)%list,
              (new ++ Resolve family domain :: log)%list)
  end.
Proof.
  rewrite awaitedLookup_run. unfold filteredHandler, WarnsUnlessNoRecord.
  destruct (oracle log domain) as [ms [addrs|e]|]; [| |done].
  - by exists [Waited ms].
  - cbn [classify]. rewrite code_differs_isNoRecord.
    destruct (isNoRecord e); cbn [negb].
    + exists [Waited ms]. by rewrite app_nil_r.
    + eexists [Warning _; Waited ms]. rewrite app_nil_r.
      split; [done|]. split; [|done]. split; [done|by eexists].
Qed.

Lemma part001_unfold w domain :
  Part001.resolveDomainIPs w domain
  = (resolved <- awaitedLookup (startLookup IPv4 (resolve4 w) domain)
                   (fun e =>
                      warning ($"IPv4 resolution failed for " +++ domain
                               +++ $": " +++ message e) ;;
                      ret []) [] ;;
     resolved <- awaitedLookup (startLookup IPv6 (resolve6 w) domain)
                   (fun e =>
                      warning ($"IPv6 resolution failed for " +++ domain
                               +++ $": " +++ message e) ;;
                      ret resolved) resolved ;;
     ret resolved)%async.
Proof. reflexivity. Qed.

(* ===================================================================== *)
(** ** Mode Controller: properties *)
(* ===================================================================== *)

(** C1. When the tunnel interface does not exist ([ip link show] exits
    with a non-zero code) and no [config] input is given, the invocation
    returns after one call of [core.setFailed] whose message says what is
    wrong, and nothing it did before is a route operation. On a platform
    other than Linux the failure comes even earlier, before the interface
    is looked at. *)
Theorem run_fails_without_tunnel_and_config (w : World) (log : Log) (c : Z) :
  proc w log $"ip" [$"link"; $"show"; ifaceOf w] = Exited c ->
  c <> 0%Z ->
  Js.truthy (default [] (inputs w !! $"config")) = false ->
  exists msg new,
    Index.run w log = (Returns tt, SetFailed msg :: new ++ log)%list
    /\ msg = (if Js.eqb (platform w) $"linux"
              then $"WireGuard action failed: Input required and not supplied: config"
              else $"This action currently supports only Linux runners.")
    /\ failures new = []
    /\ Forall (fun e => isRouteOperation e = false) new.
Proof.
  intros Hproc Hc Hcfg. unfold Index.run, try_catch.
  destruct (Js.eqb (platform w) $"linux"); cbn [negb].
  2: { by eexists _, []. }
  erewrite bind_returns; [|apply getInput_optional].
  erewrite bind_returns; [|apply getInput_optional].
  erewrite bind_returns; [|apply getInput_optional].
  erewrite bind_returns; [|apply getInput_optional].
  fold (ifaceOf w).
  assert (Hchk : Index.checkInterfaceExists w (ifaceOf w) log
                 = (Returns false,
                    Exec $"ip" [$"link"; $"show"; ifaceOf w] (mkOpts true true)
                    :: log)).
  { unfold Index.checkInterfaceExists, exec_getExecOutput, bind.
    rewrite exec_exec_run, Hproc. unfold settle_exec. cbn [ignoreReturnCode].
    rewrite orb_true_r. unfold ret. do 2 f_equal. by apply Z.eqb_neq. }
  erewrite bind_returns; [|exact Hchk]. cbn beta iota.
  erewrite bind_throws; [|by rewrite getInput_required, Hcfg].
  eexists _, [_]. split; [reflexivity|]. split; [reflexivity|].
  split; [done|]. by repeat constructor.
Qed.

Lemma run_fails_without_tunnel_and_config_witness :
  exists msg new,
    Index.run bareHost [] = (Returns tt, SetFailed msg :: new ++ [])%list
    /\ msg = $"WireGuard action failed: Input required and not supplied: config"
    /\ failures new = []
    /\ Forall (fun e => isRouteOperation e = false) new.
Proof.
  apply (run_fails_without_tunnel_and_config bareHost [] 1%Z).
  - reflexivity.
  - discriminate.
  - reflexivity.
Defined.

(* ===================================================================== *)
(** ** Route Applicator: properties *)
(* ===================================================================== *)

(** C2. An address with a [:] is applied with [sudo ip -6 route add
    <address>/128 dev <interface>], any other address with [sudo ip route
    add <address>/32 dev <interface>]; and whatever an invocation does,
    each of its route operations is such a host route. *)
Theorem routes_are_host_routes (w : World) (ip iface : jsstring) (log : Log) :
  (exists outcome,
     Index.addSingleRoute w ip iface log
     = (outcome,
        Exec $"sudo"
          (if Js.includes Js.colon ip
           then [$"ip"; $"-6"; $"route"; $"add"; ip +++ $"/128"; $"dev"; iface]
           else [$"ip"; $"route"; $"add"; ip +++ $"/32"; $"dev"; iface])
          noOptions :: log))
  /\ (exists new,
        snd (Index.run w log) = (new ++ log)%list
        /\ Forall HostRouteOnly new).
Proof.
  split.
  - rewrite addSingleRoute_run. eexists. reflexivity.
  - apply run_host_routes_only.
Qed.

(** C6. In a batch every address is tried once, in order, duplicates
    included. A refused command is caught at its own address: it leaves
    one warning and the next address follows; the batch returns and no
    failure is signalled. The count that the batch reports is the number
    of commands that were accepted: it is counted by try and not by
    address, so the same address given twice and accepted twice counts as
    two. The same holds for the addresses of domains: each address that
    the resolution of this run gave is tried once, in the order given,
    and the addresses kept are those whose command was accepted. On
    [pickyHost] the first of two addresses is refused: one warning, and
    the second is routed and counted. *)
Theorem batches_isolate_failures (w : World) (domains ips : list jsstring)
    (iface : jsstring) (log : Log) :
  (exists new kept,
     Index.addRoutesForIPs w ips iface log = (Returns tt, new ++ log)%list
     /\ LiteralBatch w iface log ips kept (new ++ log)
     /\ commands new
        = rev (List.map (fun ip => ($"sudo", hostRoute ip iface)) ips)
     /\ failures new = []
     /\ (length kept + length (warnings new) = length ips)%nat
     /\ failedCommands w (new ++ log)
        = (length (warnings new) + failedCommands w log)%nat
     /\ match ips with
        | [] => new = []
        | _ :: _ =>
            head new = Some (Info ($"Added " +++ Js.ofNat (length kept)
                                   +++ $" route(s) for IPs."))
        end)
  /\ (exists new perDomain,
        Index.addRoutesForDomains w domains iface log
        = (Returns (concat perDomain), new ++ log)%list
        /\ DomainBatch w iface log domains perDomain (new ++ log)
        /\ failures new = []
        /\ (failedCommands w (new ++ log) + length (concat perDomain)
            = length (commands new) + failedCommands w log)%nat
        /\ match domains with
           | [] => new = []
           | _ :: _ =>
               head new
               = Some (Info ($"Added "
                             +++ Js.ofNat (length (concat perDomain))
                             +++ $" route(s) for domains."))
           end)
  /\ (exists new all,
        Index.addRoutes w domains ips iface log = (Returns all, new ++ log)%list
        /\ failures new = [])
  /\ head (snd (Index.addRoutesForIPs quietHost [$"10.0.0.5"; $"10.0.0.5"]
                  $"wg0" []))
     = Some (Info $"Added 2 route(s) for IPs.")
  /\ Index.addRoutesForDomains pickyHost [$"example.com"] $"wg0" []
     = (Returns [$"10.0.0.2"],
        [Info $"Added 1 route(s) for domains.";
         Exec $"sudo" (hostRoute $"10.0.0.2" $"wg0") noOptions;
         Info $"Adding route for example.com (10.0.0.2) via wg0";
         Warning ($"Failed to add route for 10.0.0.1: "
                  +++ $"The process '/usr/bin/sudo' failed with exit code 2");
         Exec $"sudo" (hostRoute $"10.0.0.1" $"wg0") noOptions;
         Info $"Adding route for example.com (10.0.0.1) via wg0";
         Waited 15; Resolve IPv6 $"example.com";
         Waited 12; Resolve IPv4 $"example.com";
         Info $"Resolving example.com...";
         Info $"Adding routes for 1 domain(s)..."]).
Proof.
  split; [|split; [|split; [|split; [reflexivity|reflexivity]]]].
  - destruct (addRoutesForIPs_run w ips iface log)
      as (new & k & Hrun & Hcmd & Hf & _ & Hk & Hfc & Hhead
          & kept & -> & Hlit).
    by exists new, kept.
  - destruct (addRoutesForDomains_run w domains iface log)
      as (new & perDomain & Hrun & Hdom & _ & Hf & _ & Hfc & Hhead).
    by exists new, perDomain.
  - destruct (addRoutes_run w domains ips iface log)
      as (new & perDomain & Hrun & _ & _ & Hf & _).
    by exists new, (concat perDomain ++ ips)%list.
Qed.

(** C5. The list that route application returns is the addresses kept
    for the first domain, then those of the second, and so on, each group
    in the order in which the resolution made in this run gave them,
    followed by the literal addresses in input order. That list is what
    either mode hands to the probe, which takes its first three. *)
Theorem combined_list_order (w : World) (config : jsstring)
    (domains ips : list jsstring) (iface : jsstring) (stripDns : bool)
    (log : Log) :
  (exists new perDomain mid kept,
     Index.addRoutes w domains ips iface log
     = (Returns (concat perDomain ++ ips), new ++ log)%list
     /\ DomainBatch w iface log domains perDomain mid
     /\ LiteralBatch w iface mid ips kept (new ++ log))
  /\ (exists new perDomain mid,
        Index.handleAddRouteMode w domains ips iface log
        = (Returns tt, new ++ log)%list
        /\ DomainBatch w iface
             (Info ($"WireGuard interface '" +++ iface
                    +++ $"' already exists. Adding routes...") :: log)
             domains perDomain mid
        /\ mid `suffix_of` (new ++ log)%list
        /\ probed new = rev (take 3 (concat perDomain ++ ips)))
  /\ match Index.setupWireGuard w config iface stripDns
             (Info $"Setting up WireGuard interface..." :: log) with
     | (Returns _, up) =>
         exists new perDomain mid,
           Index.handleSetupMode w config domains ips iface stripDns log
           = (Returns tt, new ++ up)%list
           /\ DomainBatch w iface up domains perDomain mid
           /\ mid `suffix_of` (new ++ up)%list
           /\ probed new = rev (take 3 (concat perDomain ++ ips))
     | (Throws e, up) =>
         Index.handleSetupMode w config domains ips iface stripDns log
         = (Throws e, up)
     | (Hangs, _) => False
     end.
Proof.
  split; [|split].
  - destruct (addRoutes_run w domains ips iface log)
      as (new & perDomain & Hrun & (mid & kept & Hdom & Hlit) & _).
    by exists new, perDomain, mid, kept.
  - destruct (handleAddRouteMode_run w domains ips iface log)
      as (new & perDomain & Hrun & _ & (mid & Hdom & Hsuf) & Hp).
    by exists new, perDomain, mid.
  - pose proof (handleSetupMode_run w config domains ips iface stripDns log)
      as Hmode.
    destruct (Index.setupWireGuard w config iface stripDns _)
      as [[[]|e|] up]; [|done|done].
    destruct Hmode as (new & perDomain & Hrun & _ & (mid & Hdom & Hsuf) & Hp).
    by exists new, perDomain, mid.
Qed.

(** C10. Route application returns every literal address, whatever
    became of its route, after the addresses of domains, each of which
    had its route command exit with 0. So a literal address whose route
    was refused is still probed: on [refusingHost] the one route command
    fails, no route is counted, and the address is pinged. *)
Theorem literals_kept_domains_filtered (w : World)
    (domains ips : list jsstring) (iface : jsstring) (log : Log) :
  (exists new domainIPs,
     Index.addRoutes w domains ips iface log
     = (Returns (domainIPs ++ ips), new ++ log)%list
     /\ Forall (RouteSucceeded w iface (new ++ log)) domainIPs)
  /\ (let after := snd (Index.run refusingHost []) in
      commands after
      = [($"ping", [$"-c"; $"2"; $"-W"; $"3"; $"10.0.0.5"]);
         ($"sudo", hostRoute $"10.0.0.5" $"wg0");
         ($"ip", [$"link"; $"show"; $"wg0"])]
      /\ failedCommands refusingHost after = 1%nat
      /\ In (Info $"Added 0 route(s) for IPs.") after
      /\ probed after = [$"10.0.0.5"]
      /\ failures after = []).
Proof.
  split.
  - destruct (addRoutes_run w domains ips iface log)
      as (new & perDomain & Hrun & _ & Hok & _).
    by exists new, (concat perDomain).
  - vm_compute. repeat split; tauto.
Qed.

(* ===================================================================== *)
(** ** Reachability Prober: properties *)
(* ===================================================================== *)

(** C4. The probe pings the first three addresses of its list and no
    other, waits at most ten seconds for each, always returns and never
    signals a failure; and how the pings go changes neither the completion
    of the invocation nor its failure signal. *)
Theorem probe_is_bounded_and_harmless (w : World) (ips : list jsstring)
    (log : Log) :
  (exists new,
     Index.testConnectivity w ips log = (Returns tt, new ++ log)%list
     /\ probed new = rev (take 3 ips)
     /\ (length (probed new) <= 3)%nat
     /\ Forall (fun ms => ms <= 10000) (waits new)
     /\ failures new = [])
  /\ (forall pings,
        fst (Index.run (with_procTimed w pings) log) = fst (Index.run w log)
        /\ failures (snd (Index.run (with_procTimed w pings) log))
           = failures (snd (Index.run w log))).
Proof.
  split.
  - destruct (testConnectivity_run w ips log) as (new & Hrun & Hp & Hf & Hw).
    exists new. repeat split; try done.
    rewrite Hp, length_rev, length_take. lia.
  - intros pings.
    destruct (run_outcome (with_procTimed w pings) log) as (new1 & Hrun1 & Hf1).
    destruct (run_outcome w log) as (new2 & Hrun2 & Hf2).
    rewrite Hrun1, Hrun2. cbn [fst snd]. split; [done|].
    rewrite !failures_app, Hf1, Hf2. reflexivity.
Qed.

(* ===================================================================== *)
(** ** Address Resolver: properties *)
(* ===================================================================== *)

Lemma Surfaced_timeout timeoutMs p new :
  Surfaced (observe timeoutMs p) new -> TimeoutSurfaced timeoutMs p new.
Proof.
  intros (_ & _ & _ & Hw). unfold TimeoutSurfaced.
  destruct p as [ms s|]; cbn in *; [|done].
  by destruct (ms <? timeoutMs).
Qed.

Lemma part001_run w domain log :
  match resolve4 w log domain with
  | Never =>
      Part001.resolveDomainIPs w domain log
      = (Hangs, Resolve IPv4 domain :: log)
  | After ms4 s4 =>
      exists new4,
        WarnsOnEveryFailure s4 new4
        /\ match resolve6 w (new4 ++ Resolve IPv4 domain :: log) domain with
           | Never =>
               Part001.resolveDomainIPs w domain log
               = (Hangs,
                  Resolve IPv6 domain :: new4 ++ Resolve IPv4 domain :: log)%list
           | After ms6 s6 =>
               exists new6,
                 WarnsOnEveryFailure s6 new6
                 /\ Part001.resolveDomainIPs w domain log
                    = (Returns (answers s4 ++ answers s6)%list,
                       (new6 ++ Resolve IPv6 domain :: new4
                        ++ Resolve IPv4 domain :: log)%list)
           end
  end.
Proof.
  rewrite part001_unfold. unfold bind, warning, emit, ret.
  rewrite awaitedLookup_run.
  destruct (resolve4 w log domain) as [ms4 [a4|e4]|]; [| |done].
  - exists [Waited ms4]. split; [done|]. cbn [app].
    rewrite awaitedLookup_run.
    destruct (resolve6 w _ domain) as [ms6 [a6|e6]|]; [| |done].
    + by exists [Waited ms6].
    + eexists [_; Waited ms6]. split; [|by rewrite app_nil_r].
      split; [done|]. by eexists.
  - exists [Warning ($"IPv4 resolution failed for " +++ domain +++ $": "
                     +++ message e4); Waited ms4].
    split; [split; [done|by eexists]|].
    cbn [app]. rewrite awaitedLookup_run.
    destruct (resolve6 w _ domain) as [ms6 [a6|e6]|]; [| |done].
    + by exists [Waited ms6].
    + eexists [_; Waited ms6]. split; [|done].
      split; [done|]. by eexists.
Qed.

Lemma part000_run w domain log :
  match resolve4 w log domain with
  | Never =>
      Part000.resolveDomainIPs w domain log
      = (Hangs, Resolve IPv4 domain :: log)
  | After ms4 s4 =>
      exists new4,
        waits new4 = [ms4]
        /\ match resolve6 w (new4 ++ Resolve IPv4 domain :: log) domain with
           | Never =>
               Part000.resolveDomainIPs w domain log
               = (Hangs,
                  Resolve IPv6 domain :: new4 ++ Resolve IPv4 domain :: log)%list
           | After ms6 s6 =>
               exists new6,
                 waits new6 = [ms6]
                 /\ Part000.resolveDomainIPs w domain log
                    = (Returns (answers s4 ++ answers s6)%list,
                       (new6 ++ Resolve IPv6 domain :: new4
                        ++ Resolve IPv4 domain :: log)%list)
           end
  end.
Proof.
  rewrite part000_unfold.
  pose proof (filtered_lookup_run IPv4 (resolve4 w) $"IPv4" domain [] log)
    as H4.
  destruct (resolve4 w log domain) as [ms4 s4|].
  2: { by erewrite bind_hangs. }
  destruct H4 as (new4 & Hw4 & _ & Hrun4). exists new4. split; [done|].
  erewrite bind_returns; [|exact Hrun4].
  pose proof (filtered_lookup_run IPv6 (resolve6 w) $"IPv6" domain
                ([] ++ answers s4)%list
                (new4 ++ Resolve IPv4 domain :: log)%list) as H6.
  destruct (resolve6 w _ domain) as [ms6 s6|].
  2: { by erewrite bind_hangs. }
  destruct H6 as (new6 & Hw6 & _ & Hrun6). exists new6. split; [done|].
  by erewrite bind_returns; [|exact Hrun6].
Qed.

(** C3, against part_001. The name has an A record and no AAAA record:
    the IPv6 lookup is rejected with ENODATA, which index.ts would take
    for a missing record, and part_001 logs a warning for it. *)
Lemma part001_warns_without_record :
  observe 5000
    (resolve6 v4onlyHost [Waited 12; Resolve IPv4 $"example.com"]
       $"example.com") = NoRecord
  /\ Part001.resolveDomainIPs v4onlyHost $"example.com" []
     = (Returns [$"93.184.216.34"],
        [Warning $"IPv6 resolution failed for example.com: queryAaaa ENODATA example.com";
         Waited 15; Resolve IPv6 $"example.com";
         Waited 12; Resolve IPv4 $"example.com"]).
Proof. split; reflexivity. Qed.

(** C3, as the code has it. In index.ts resolution asks for the IPv4 and
    then for the IPv6 addresses, whatever the first lookup gave, and
    returns what the lookups answered in time, the IPv4 addresses first;
    it never throws; a lookup rejected with ENOTFOUND or ENODATA leaves no
    warning, a lookup rejected otherwise (or timed out) leaves one. In
    part_001 the two lookups are made in the same way and a rejection is
    never propagated either, but every rejected lookup leaves a warning,
    a missing record included (and a lookup that never settles is waited
    for). *)
Theorem resolution_warnings (w : World) (domain : jsstring) (log : Log) :
  (exists new4 new6,
     let o4 := observe 5000 (resolve4 w log domain) in
     let mid := (new4 ++ Resolve IPv4 domain :: log)%list in
     let o6 := observe 5000 (resolve6 w mid domain) in
     Index.resolveDomainIPs w domain log
     = (Returns (contributes o4 ++ contributes o6)%list,
        (new6 ++ Resolve IPv6 domain :: mid)%list)
     /\ Surfaced o4 new4 /\ Surfaced o6 new6)
  /\ match resolve4 w log domain with
     | Never =>
         Part001.resolveDomainIPs w domain log
         = (Hangs, Resolve IPv4 domain :: log)
     | After ms4 s4 =>
         exists new4,
           WarnsOnEveryFailure s4 new4
           /\ match resolve6 w (new4 ++ Resolve IPv4 domain :: log) domain with
              | Never =>
                  Part001.resolveDomainIPs w domain log
                  = (Hangs,
                     Resolve IPv6 domain :: new4
                     ++ Resolve IPv4 domain :: log)%list
              | After ms6 s6 =>
                  exists new6,
                    WarnsOnEveryFailure s6 new6
                    /\ Part001.resolveDomainIPs w domain log
                       = (Returns (answers s4 ++ answers s6)%list,
                          (new6 ++ Resolve IPv6 domain :: new4
                           ++ Resolve IPv4 domain :: log)%list)
              end
     end.
Proof.
  split; [|apply part001_run].
  destruct (resolveDomainIPs_run w domain log)
    as (new4 & new6 & Hrun & Hs4 & Hs6 & _).
  by exists new4, new6.
Qed.

Lemma verdict_without_resolver w r4 r6 log :
  verdict (with_resolvers w r4 r6) log = verdict w log.
Proof. reflexivity. Qed.

(** C7, against part_000. The name server does not answer and the
    resolver gives up with ETIMEOUT after 27 seconds: part_000 waits the
    27 seconds out for each family, nothing bounding the lookup to a few
    seconds, then has a warning and no address. index.ts waits 5000 ms
    for each family on that host. *)
Lemma part000_waits_for_the_resolver :
  Part000.resolveDomainIPs slowHost $"example.com" []
  = (Returns [],
     [Warning $"Failed to resolve IPv6 for example.com: queryAaaa ETIMEOUT example.com";
      Waited 27000; Resolve IPv6 $"example.com";
      Warning $"Failed to resolve IPv4 for example.com: queryA ETIMEOUT example.com";
      Waited 27000; Resolve IPv4 $"example.com"])
  /\ Index.resolveDomainIPs slowHost $"example.com" []
     = (Returns [],
        [Warning $"IPv6 resolution for example.com timed out";
         Waited 5000; Resolve IPv6 $"example.com";
         Warning $"IPv4 resolution for example.com timed out";
         Waited 5000; Resolve IPv4 $"example.com"]).
Proof. split; reflexivity. Qed.

(** C7, as the code has it. In index.ts each of the two lookups is
    waited for at most 5000 ms; a lookup that has not settled by then
    contributes no address and leaves a warning, and resolution returns
    all the same. The invocation is not failed by it: whether [run]
    signals a failure, and which, does not depend on what the resolver
    answers or on how long it takes. In part_000 nothing bounds the
    lookups: each is waited for as long as the resolver takes. *)
Theorem lookups_bounded_in_index (w : World) (domain : jsstring) (log : Log) :
  (exists new4 new6,
     let p4 := resolve4 w log domain in
     let mid := (new4 ++ Resolve IPv4 domain :: log)%list in
     let p6 := resolve6 w mid domain in
     Index.resolveDomainIPs w domain log
     = (Returns (contributes (observe 5000 p4)
                 ++ contributes (observe 5000 p6))%list,
        (new6 ++ Resolve IPv6 domain :: mid)%list)
     /\ length (waits new4 ++ waits new6) = 2%nat
     /\ Forall (fun ms => ms <= 5000) (waits new4 ++ waits new6)
     /\ TimeoutSurfaced 5000 p4 new4 /\ TimeoutSurfaced 5000 p6 new6
     /\ failures new4 = [] /\ failures new6 = [])
  /\ (forall r4 r6 : Log -> jsstring -> Timed (Settled (list jsstring)),
      exists new new',
        Index.run w log = (Returns tt, new ++ log)%list
        /\ Index.run (with_resolvers w r4 r6) log
           = (Returns tt, new' ++ log)%list
        /\ failures new' = failures new)
  /\ match resolve4 w log domain with
     | Never =>
         Part000.resolveDomainIPs w domain log
         = (Hangs, Resolve IPv4 domain :: log)
     | After ms4 s4 =>
         exists new4,
           waits new4 = [ms4]
           /\ match resolve6 w (new4 ++ Resolve IPv4 domain :: log) domain with
              | Never =>
                  Part000.resolveDomainIPs w domain log
                  = (Hangs,
                     Resolve IPv6 domain :: new4
                     ++ Resolve IPv4 domain :: log)%list
              | After ms6 s6 =>
                  exists new6,
                    waits new6 = [ms6]
                    /\ Part000.resolveDomainIPs w domain log
                       = (Returns (answers s4 ++ answers s6)%list,
                          (new6 ++ Resolve IPv6 domain :: new4
                           ++ Resolve IPv4 domain :: log)%list)
              end
     end.
Proof.
  split; [|split; [|apply part000_run]].
  - destruct (resolveDomainIPs_run w domain log)
      as (new4 & new6 & Hrun & Hs4 & Hs6 & _ & _ & Hle & Hlen).
    exists new4, new6. cbn zeta in *.
    split; [done|]. split; [done|]. split; [done|].
    split; [by apply Surfaced_timeout|]. split; [by apply Surfaced_timeout|].
    destruct Hs4 as (_ & _ & Hf4 & _), Hs6 as (_ & _ & Hf6 & _). done.
  - intros r4 r6.
    destruct (run_outcome w log) as (new & Hrun & Hf).
    destruct (run_outcome (with_resolvers w r4 r6) log) as (new' & Hrun' & Hf').
    exists new, new'. split; [done|]. split; [done|].
    by rewrite Hf, Hf', verdict_without_resolver.
Qed.

(* ===================================================================== *)
(** ** More on the Mode Controller *)
(* ===================================================================== *)

Lemma verdict_at_most_one w log : (length (verdict w log) <= 1)%nat.
Proof. unfold verdict. repeat case_match; cbn [length]; lia. Qed.

(** [run] never rejects: every error thrown under it is caught. Given
    that the commands it awaits end, it returns having signalled at most
    one failure, and a failure only for one of four reasons: the platform
    is not Linux, [ip link show] could not be started, the tunnel has to
    be brought up and [config] is missing, or the bring-up threw. *)
Theorem run_always_returns (w : World) (log : Log) :
  exists new,
    Index.run w log = (Returns tt, new ++ log)%list
    /\ failures new = verdict w log
    /\ (length (failures new) <= 1)%nat.
Proof.
  destruct (run_outcome w log) as (new & Hrun & Hf).
  exists new. split; [done|]. split; [done|].
  rewrite Hf. apply verdict_at_most_one.
Qed.

Lemma or_else_nil (a : jsstring) : Js.or_else a [] = a.
Proof. by destruct a. Qed.

Lemma checkInterfaceExists_run w iface log :
  Index.checkInterfaceExists w iface log
  = (match proc w log $"ip" [$"link"; $"show"; iface] with
     | Exited c => Returns (c =? 0)%Z
     | SpawnError e => Throws e
     end,
     Exec $"ip" [$"link"; $"show"; iface] (mkOpts true true) :: log).
Proof.
  unfold Index.checkInterfaceExists, exec_getExecOutput, bind.
  rewrite exec_exec_run. unfold settle_exec. cbn [ignoreReturnCode].
  destruct (proc w log _ _) as [c|e]; [|done]. by rewrite orb_true_r.
Qed.

Lemma run_on_linux w log :
  Js.eqb (platform w) $"linux" = true ->
  Index.run w log
  = try_catch
      (interfaceExists <- Index.checkInterfaceExists w (ifaceOf w) ;;
       if interfaceExists then
         Index.handleAddRouteMode w
           (parseInputList
              (Js.or_else (Js.trim (default [] (inputs w !! $"domains"))) []))
           (parseInputList
              (Js.or_else (Js.trim (default [] (inputs w !! $"ips"))) []))
           (ifaceOf w)
       else
         config <- getInput w $"config" true ;;
         Index.handleSetupMode w config
           (parseInputList
              (Js.or_else (Js.trim (default [] (inputs w !! $"domains"))) []))
           (parseInputList
              (Js.or_else (Js.trim (default [] (inputs w !! $"ips"))) []))
           (ifaceOf w)
           (negb (Js.eqb (Js.trim (default [] (inputs w !! $"strip_dns")))
                         $"false")))
      (fun err => setFailed (failedWith err)) log.
Proof.
  intros Hlinux. unfold Index.run, try_catch. rewrite Hlinux. cbn [negb].
  erewrite bind_returns; [|apply getInput_optional].
  erewrite bind_returns; [|apply getInput_optional].
  erewrite bind_returns; [|apply getInput_optional].
  erewrite bind_returns; [|apply getInput_optional].
  reflexivity.
Qed.

Lemma handleAddRouteMode_no_bringup w domains ips iface :
  Emits NoBringUp (Index.handleAddRouteMode w domains ips iface).
Proof.
  apply handleAddRouteMode_emits; try done.
  intros ip i. unfold hostRoute. by destruct (Js.includes Js.colon ip).
Qed.

(** When the interface exists the invocation cannot fail: whatever
    resolution, route commands and pings do, [run] returns without a
    failure signal; and it installs nothing, writes no file and starts no
    tunnel. *)
Theorem existing_interface_never_fails (w : World) (log : Log) :
  Js.eqb (platform w) $"linux" = true ->
  proc w log $"ip" [$"link"; $"show"; ifaceOf w] = Exited 0 ->
  exists new,
    Index.run w log = (Returns tt, new ++ log)%list
    /\ failures new = []
    /\ Forall NoBringUp new.
Proof.
  intros Hlinux Hproc. rewrite (run_on_linux w log Hlinux). unfold try_catch.
  assert (Hchk : Index.checkInterfaceExists w (ifaceOf w) log
                 = (Returns true,
                    Exec $"ip" [$"link"; $"show"; ifaceOf w] (mkOpts true true)
                    :: log))
    by (by rewrite checkInterfaceExists_run, Hproc).
  erewrite bind_returns; [|exact Hchk]. cbn beta iota.
  set (domains := parseInputList _). set (ips := parseInputList _).
  set (log1 := Exec _ _ _ :: log).
  destruct (handleAddRouteMode_run w domains ips (ifaceOf w) log1)
    as (new & perDomain & Hrun & Hf & _).
  destruct (handleAddRouteMode_no_bringup w domains ips (ifaceOf w) log1)
    as (new' & Hlog & Hnew).
  rewrite Hrun in Hlog. cbn [snd] in Hlog. apply app_inv_tail in Hlog as <-.
  rewrite Hrun. exists (new ++ [Exec $"ip" [$"link"; $"show"; ifaceOf w]
                                  (mkOpts true true)])%list.
  split; [by rewrite <- app_assoc|]. split.
  - logs. by rewrite Hf.
  - apply Forall_app. split; [done|]. by repeat constructor.
Qed.

Lemma existing_interface_never_fails_witness :
  exists new,
    Index.run refusingHost [] = (Returns tt, new ++ [])%list
    /\ failures new = []
    /\ Forall NoBringUp new.
Proof.
  apply (existing_interface_never_fails refusingHost []); reflexivity.
Defined.

(** When the interface exists and neither a domain nor an address is
    given, the invocation only says so in a warning: after the interface
    query it starts no command and no lookup. *)
Theorem existing_interface_without_targets (w : World) (log : Log) :
  Js.eqb (platform w) $"linux" = true ->
  proc w log $"ip" [$"link"; $"show"; ifaceOf w] = Exited 0 ->
  parseInputList (Js.trim (default [] (inputs w !! $"domains"))) = [] ->
  parseInputList (Js.trim (default [] (inputs w !! $"ips"))) = [] ->
  Index.run w log
  = (Returns tt,
     [Warning $"Interface exists but no domains or IPs specified. Nothing to do.";
      Info ($"WireGuard interface '" +++ ifaceOf w
            +++ $"' already exists. Adding routes...");
      Exec $"ip" [$"link"; $"show"; ifaceOf w] (mkOpts true true)] ++ log)%list.
Proof.
  intros Hlinux Hproc Hd Hi. rewrite (run_on_linux w log Hlinux).
  unfold try_catch.
  assert (Hchk : Index.checkInterfaceExists w (ifaceOf w) log
                 = (Returns true,
                    Exec $"ip" [$"link"; $"show"; ifaceOf w] (mkOpts true true)
                    :: log))
    by (by rewrite checkInterfaceExists_run, Hproc).
  erewrite bind_returns; [|exact Hchk]. cbn beta iota.
  rewrite !or_else_nil, Hd, Hi. reflexivity.
Qed.

Lemma existing_interface_without_targets_witness :
  Index.run quietHost []
  = (Returns tt,
     [Warning $"Interface exists but no domains or IPs specified. Nothing to do.";
      Info $"WireGuard interface 'wg0' already exists. Adding routes...";
      Exec $"ip" [$"link"; $"show"; $"wg0"] (mkOpts true true)]).
Proof.
  apply (existing_interface_without_targets quietHost []); reflexivity.
Defined.

(* ===================================================================== *)
(** ** Tunnel bring-up *)
(* ===================================================================== *)

Lemma cons_prefix {A} (e : A) (l new log : list A) :
  l = (new ++ log)%list -> e :: l = ((e :: new) ++ log)%list.
Proof. by intros ->. Qed.

Lemma nil_prefix {A} (log : list A) : log = ([] ++ log)%list.
Proof. done. Qed.

(** Finds the events that were added in front of the log. *)
Ltac added := repeat (eapply cons_prefix); apply nil_prefix.

Lemma probed_sudo args opts : probed [Exec $"sudo" args opts] = [].
Proof. by destruct args as [|a [|b [|c [|d [|e [|f args]]]]]]. Qed.



Lemma setupWireGuard_no_routing w config iface stripDns :
  Emits NoRouting (Index.setupWireGuard w config iface stripDns).
Proof.
  apply setupWireGuard_emits; try done.
  - intros first rest opts Hfirst. split; [|split; [done|]].
    + unfold isRouteOperation. by rewrite Hfirst, andb_false_r.
    + apply probed_sudo.
  - by intros [].
Qed.

(** A bring-up that throws ends the mode at once: the error is passed on
    and nothing was resolved, routed or probed. *)
Theorem failed_bringup_stops_everything (w : World) (config : jsstring)
    (domains ips : list jsstring) (iface : jsstring) (stripDns : bool)
    (log : Log) (e : JsError) :
  fst (Index.setupWireGuard w config iface stripDns
         (Info $"Setting up WireGuard interface..." :: log)) = Throws e ->
  exists new,
    Index.handleSetupMode w config domains ips iface stripDns log
    = (Throws e, new ++ log)%list
    /\ Forall (fun ev => isRouteOperation ev = false) new
    /\ lookups new = []
    /\ probed new = [].
Proof.
  intros Hthrows.
  pose proof (handleSetupMode_run w config domains ips iface stripDns log)
    as Hmode.
  destruct (setupWireGuard_no_routing w config iface stripDns
              (Info $"Setting up WireGuard interface..." :: log))
    as (new & Hlog & Hnew).
  destruct (Index.setupWireGuard w config iface stripDns _)
    as [[[]|e'|] log1]; cbn in Hthrows; try done.
  injection Hthrows as ->. cbn [snd] in Hlog. subst log1.
  exists (new ++ [Info $"Setting up WireGuard interface..."])%list.
  split; [by rewrite Hmode, <- app_assoc|].
  assert (Hall : Forall NoRouting
                   (new ++ [Info $"Setting up WireGuard interface..."])).
  { apply Forall_app. split; [done|]. by repeat constructor. }
  clear -Hall. induction Hall as [|ev evs (Hr & Hl & Hp) _ (IH1 & IH2 & IH3)].
  - done.
  - split; [by constructor|]. split.
    + change (ev :: evs) with ([ev] ++ evs)%list.
      by rewrite lookups_app, Hl, IH2.
    + by rewrite probed_cons, Hp, IH3.
Qed.

Lemma failed_bringup_stops_everything_witness :
  exists new,
    Index.handleSetupMode
      (host [] routesRefused (noRecords $"A") (noRecords $"Aaaa"))
      $"W0ludGVyZmFjZV0=" [$"example.com"] [$"10.0.0.5"] $"wg0" true []
    = (Throws (Error $"The process '/usr/bin/sudo' failed with exit code 2"),
       new ++ [])%list
    /\ Forall (fun ev => isRouteOperation ev = false) new
    /\ lookups new = []
    /\ probed new = [].
Proof.
  apply (failed_bringup_stops_everything
           (host [] routesRefused (noRecords $"A") (noRecords $"Aaaa"))).
  reflexivity.
Defined.


Lemma filter_sepFree sep (keep : jsstring -> bool) (lines : list jsstring) :
  Forall (sepFree sep) lines -> Forall (sepFree sep) (List.filter keep lines).
Proof.
  intros Hall. apply Forall_forall. intros l Hin.
  apply list_elem_of_In, filter_In in Hin as [Hin _].
  rewrite Forall_forall in Hall. by apply Hall, list_elem_of_In.
Qed.

Lemma stripped_lines w (text : jsstring) :
  toLowerCase w [] = [] ->
  Forall (fun line => isDnsLine w line = false)
    (Js.split Js.newline
       (Js.join Js.newline
          (List.filter (fun line => negb (isDnsLine w line))
             (Js.split Js.newline text)))).
Proof.
  intros Hlower.
  pose proof (filter_sepFree Js.newline (fun line => negb (isDnsLine w line))
                _ (split_sepFree Js.newline text)) as Hfree.
  destruct (List.filter _ (Js.split Js.newline text)) as [|l ls] eqn:Hkept.
  - repeat constructor. unfold isDnsLine. cbn. by rewrite Hlower.
  - rewrite split_join by done. rewrite <- Hkept.
    apply Forall_forall. intros line Hin.
    apply list_elem_of_In, filter_In in Hin as [_ Hin].
    by apply negb_true_iff.
Qed.

Lemma unstripped_text w (text : jsstring) :
  Forall (fun line => isDnsLine w line = false) (Js.split Js.newline text) ->
  Js.join Js.newline
    (List.filter (fun line => negb (isDnsLine w line))
       (Js.split Js.newline text)) = text.
Proof.
  intros Hall. rewrite <- (join_split Js.newline text) at 2. f_equal.
  induction Hall as [|l ls Hl _ IH]; [done|].
  cbn [List.filter]. by rewrite Hl, IH.
Qed.

(** With [strip_dns] the configuration is written without any line that
    starts with [dns] (white space and case aside), a configuration that
    has no such line is written as it was decoded, and without
    [strip_dns] the decoded text is written whatever it holds; the file
    mode is 0600 in each case. *)
Theorem strip_dns_removes_dns_lines (w : World) (config iface : jsstring)
    (log : Log) :
  toLowerCase w [] = [] ->
  (exists new,
     snd (Index.setupWireGuardConfig w config iface true log)
     = (new ++ log)%list
     /\ Forall (fun '(_, content, mode) =>
                  mode = 384
                  /\ Forall (fun line => isDnsLine w line = false)
                       (Js.split Js.newline content)
                  /\ (Forall (fun line => isDnsLine w line = false)
                        (Js.split Js.newline (base64ToUtf8 w config)) ->
                      content = base64ToUtf8 w config))
          (written new))
  /\ (exists new,
        snd (Index.setupWireGuardConfig w config iface false log)
        = (new ++ log)%list
        /\ Forall (fun '(_, content, mode) =>
                     mode = 384 /\ content = base64ToUtf8 w config)
             (written new)).
Proof.
  intros Hlower.
  assert (Hwritten : forall (Q : jsstring * jsstring * N -> Prop) new,
    Forall (fun e => match e with
                     | WriteFile f c m => Q (f, c, m)
                     | _ => True
                     end) new ->
    Forall Q (written new)).
  { intros Q new Hall. induction Hall as [|e new He _ IH]; [done|].
    destruct e; try exact IH. by constructor. }
  split.
  - set (P := fun e => match e with
                       | WriteFile f c m =>
                           m = 384
                           /\ Forall (fun line => isDnsLine w line = false)
                                (Js.split Js.newline c)
                           /\ (Forall (fun line => isDnsLine w line = false)
                                 (Js.split Js.newline (base64ToUtf8 w config)) ->
                               c = base64ToUtf8 w config)
                       | _ => True
                       end).
    unfold Index.setupWireGuardConfig.
    erewrite bind_returns; [|reflexivity].
    match goal with
    | |- context [snd (?rest ?log1)] =>
        assert (Hemits : Emits P rest);
        [|destruct (Hemits log1) as (new & Hlog & Hnew)]
    end.
    { unfold fs_mkdtemp, fs_writeFile, io_mkdirP, settle.
      emits_with ltac:(by apply exec_exec_emits); try done.
      split; [done|]. split.
      - by apply stripped_lines.
      - apply unstripped_text. }
    exists (new ++ [Info $"Stripping DNS configuration to preserve system DNS..."])%list.
    split; [by rewrite Hlog, <- app_assoc|].
    apply (Hwritten (fun '(_, content, mode) => _)).
    apply Forall_app. split; [done|]. by repeat constructor.
  - set (P := fun e => match e with
                       | WriteFile f c m =>
                           m = 384 /\ c = base64ToUtf8 w config
                       | _ => True
                       end).
    unfold Index.setupWireGuardConfig.
    erewrite bind_returns; [|reflexivity].
    match goal with
    | |- context [snd (?rest ?log1)] =>
        assert (Hemits : Emits P rest);
        [|destruct (Hemits log1) as (new & Hlog & Hnew)]
    end.
    { unfold fs_mkdtemp, fs_writeFile, io_mkdirP, settle.
      emits_with ltac:(by apply exec_exec_emits); done. }
    exists new. split; [done|].
    by apply (Hwritten (fun '(_, content, mode) => _)).
Qed.

Lemma strip_dns_removes_dns_lines_witness :
  toLowerCase quietHost [] = []
  /\ base64ToUtf8 quietHost exampleConfigBase64
     = Js.join Js.newline exampleConfig
  /\ written (snd (Index.setupWireGuardConfig quietHost exampleConfigBase64
                     $"wg0" true []))
     = [($"/tmp/wg-Ab12Cd/wg0.conf",
         Js.join Js.newline
           [$"[Interface]"; $"PrivateKey = abc"; $"Address = 10.0.0.2/32"],
         384)]
  /\ written (snd (Index.setupWireGuardConfig quietHost exampleConfigBase64
                     $"wg0" false []))
     = [($"/tmp/wg-Ab12Cd/wg0.conf", Js.join Js.newline exampleConfig, 384)]
  /\ exists new,
       snd (Index.setupWireGuardConfig quietHost exampleConfigBase64
              $"wg0" true [])
       = (new ++ [])%list
       /\ Forall (fun '(_, content, mode) =>
                    mode = 384
                    /\ Forall (fun line => isDnsLine quietHost line = false)
                         (Js.split Js.newline content)
                    /\ (Forall (fun line => isDnsLine quietHost line = false)
                          (Js.split Js.newline
                             (base64ToUtf8 quietHost exampleConfigBase64)) ->
                        content = base64ToUtf8 quietHost exampleConfigBase64))
            (written new).
Proof.
  split; [reflexivity|]. split; [reflexivity|].
  split; [reflexivity|]. split; [reflexivity|].
  exact (proj1 (strip_dns_removes_dns_lines quietHost exampleConfigBase64
                  $"wg0" [] eq_refl)).
Defined.

(* ===================================================================== *)
(** ** More on the Reachability Prober *)
(* ===================================================================== *)

Lemma pingOne_outcome w ip log :
  exists new,
    Index.pingOne w ip tt log = (Returns tt, new ++ log)%list
    /\ commands new = [pingCommand ip]
    /\ warnings new
       = match procTimed w (Info ($"Pinging " +++ ip +++ $"...") :: log)
                 (fst (pingCommand ip)) (snd (pingCommand ip)) with
         | After ms (Exited _) =>
             if ms <? 10000 then [] else [pingTimedOut ip]
         | After ms (SpawnError e) =>
             if ms <? 10000 then [pingNotStarted ip e] else [pingTimedOut ip]
         | Never => [pingTimedOut ip]
         end.
Proof.
  unfold Index.pingOne, exec_start, raceOrReject, pingCommand.
  cbn [fst snd].
  set (pingCmd := if Js.includes Js.colon ip then $"ping6" else $"ping").
  set (args := [$"-c"; $"2"; $"-W"; $"3"; ip]).
  run_async.
  set (msg := $"Pinging " +++ ip +++ $"...").
  destruct (procTimed w (Info msg :: log) pingCmd args) as [ms [c|e]|];
    cbn [timed_map settle_exec ignoreReturnCode];
    rewrite ?orb_true_r; try destruct (ms <? 10000); run_async;
    eexists; (split; [f_equal; added|]); by split.
Qed.

(** A ping leaves a warning only when it could not be started or when it
    had not ended after 10000 ms. A ping that ends in time leaves none,
    whatever its exit code: an address that does not answer is not
    reported. *)
Theorem ping_warns_only_when_late_or_not_started (w : World) (ip : jsstring)
    (log : Log) :
  exists new,
    Index.pingOne w ip tt log = (Returns tt, new ++ log)%list
    /\ warnings new
       = match procTimed w (Info ($"Pinging " +++ ip +++ $"...") :: log)
                 (fst (pingCommand ip)) (snd (pingCommand ip)) with
         | After ms (Exited _) =>
             if ms <? 10000 then [] else [pingTimedOut ip]
         | After ms (SpawnError e) =>
             if ms <? 10000 then [pingNotStarted ip e] else [pingTimedOut ip]
         | Never => [pingTimedOut ip]
         end.
Proof.
  destruct (pingOne_outcome w ip log) as (new & Hrun & _ & Hw).
  by exists new.
Qed.

Lemma pingOne_commands w ips log :
  exists new,
    for_of ips (Index.pingOne w) tt log = (Returns tt, new ++ log)%list
    /\ commands new = rev (List.map pingCommand ips).
Proof.
  revert log. induction ips as [|ip ips IH]; intros log.
  - by exists [].
  - destruct (pingOne_outcome w ip log) as (new1 & Hrun1 & Hc1 & _).
    destruct (IH (new1 ++ log)%list) as (new2 & Hrun2 & Hc2).
    exists (new2 ++ new1)%list. split.
    + cbn [for_of]. erewrite bind_returns; [|exact Hrun1].
      by rewrite Hrun2, app_assoc.
    + logs. by rewrite Hc2, Hc1.
Qed.

(** The probe runs [ping6] for an address with a [:] and [ping] for any
    other, each with [-c 2 -W 3], for the first three addresses in their
    order, and nothing else; given no address it does nothing at all. *)
Theorem probe_commands (w : World) (ips : list jsstring) (log : Log) :
  exists new,
    Index.testConnectivity w ips log = (Returns tt, new ++ log)%list
    /\ commands new = rev (List.map pingCommand (take 3 ips))
    /\ match ips with [] => new = [] | _ :: _ => True end.
Proof.
  unfold Index.testConnectivity. destruct ips as [|ip ips].
  - by exists [].
  - cbn [length Nat.eqb].
    destruct (pingOne_commands w (take 3 (ip :: ips))
                (Info $"Testing connectivity to routed IPs..." :: log))
      as (new & Hrun & Hc).
    exists (new ++ [Info $"Testing connectivity to routed IPs..."])%list.
    split; [|split; [|done]].
    + erewrite bind_returns; [|reflexivity]. by rewrite Hrun, <- app_assoc.
    + logs. by rewrite Hc, app_nil_r.
Qed.

(* ===================================================================== *)
(** ** More on resolution and route application *)
(* ===================================================================== *)

Lemma lookups_none new :
  Forall (fun e => lookups [e] = []) new -> lookups new = [].
Proof.
  induction 1 as [|e new He _ IH]; [done|].
  change (e :: new) with ([e] ++ new)%list. by rewrite lookups_app, He, IH.
Qed.

Lemma addDomainRoute_loop_no_lookup w domain iface ips st log :
  exists new,
    snd (for_of ips (Index.addDomainRoute w domain iface) st log)
    = (new ++ log)%list
    /\ lookups new = [].
Proof.
  assert (Hemits : Emits (fun e => lookups [e] = [])
                     (for_of ips (Index.addDomainRoute w domain iface) st)).
  { unfold Index.addDomainRoute, info, warning.
    emits_with ltac:(by apply addSingleRoute_emits); done. }
  destruct (Hemits log) as (new & Hlog & Hnew).
  exists new. split; [done|]. by apply lookups_none.
Qed.

Lemma addRoutesForDomains_loop_lookups w iface domains st log :
  exists new,
    snd (for_of domains
           (fun domain st =>
              info ($"Resolving " +++ domain +++ $"...") ;;
              ips <- Index.resolveDomainIPs w domain ;;
              for_of ips (Index.addDomainRoute w domain iface) st) st log)
    = (new ++ log)%list
    /\ lookups new = rev (flat_map lookupsFor domains).
Proof.
  revert st log. induction domains as [|domain domains IH]; intros st log.
  - by exists [].
  - set (hello := Info ($"Resolving " +++ domain +++ $"...")).
    destruct (resolveDomainIPs_run w domain (hello :: log))
      as (new4 & new6 & Hrun & (Hl4 & _) & (Hl6 & _) & _).
    cbn zeta in Hrun.
    set (resolved := (contributes _ ++ contributes _)%list) in Hrun.
    set (logR := (new6 ++ _)%list) in Hrun.
    destruct (addDomainRoute_loop_no_lookup w domain iface resolved st logR)
      as (newA & HlogA & HlA).
    destruct (addDomainRoute_loop w domain iface resolved st logR)
      as (newA' & applied & HrunA & _).
    rewrite HrunA in HlogA. cbn [snd] in HlogA.
    apply app_inv_tail in HlogA as ->.
    set (st1 := Index.mkDomainLoop _ _) in HrunA.
    destruct (IH st1 (newA ++ logR)%list) as (newT & HlogT & HlT).
    exists (newT ++ newA ++ new6 ++ Resolve IPv6 domain :: new4
            ++ [Resolve IPv4 domain; hello])%list.
    split.
    + cbn [for_of].
      erewrite bind_returns.
      2: { erewrite bind_returns; [|reflexivity].
           erewrite bind_returns; [|exact Hrun]. exact HrunA. }
      rewrite HlogT. subst logR.
      rewrite <- !app_assoc. cbn [app]. by rewrite <- !app_assoc.
    + logs. rewrite HlT, HlA, Hl6, Hl4. cbn [flat_map rev app lookupsFor].
      by rewrite <- ?app_assoc.
Qed.

(** The batch asks for the IPv4 and then the IPv6 addresses of every
    domain, in input order, whatever the earlier lookups and route
    commands gave: nothing that goes wrong for one domain keeps the next
    from being resolved. *)
Theorem every_domain_is_resolved (w : World) (domains : list jsstring)
    (iface : jsstring) (log : Log) :
  exists new,
    snd (Index.addRoutesForDomains w domains iface log) = (new ++ log)%list
    /\ lookups new = rev (flat_map lookupsFor domains).
Proof.
  unfold Index.addRoutesForDomains. destruct domains as [|domain domains].
  - by exists [].
  - cbn [length Nat.eqb].
    set (msg := $"Adding routes for " +++ _). set (hello := Info msg).
    destruct (addRoutesForDomains_loop_lookups w iface (domain :: domains)
                (Index.mkDomainLoop 0 []) (hello :: log))
      as (new & Hlog & Hl).
    destruct (addRoutesForDomains_loop w iface (domain :: domains)
                (Index.mkDomainLoop 0 []) (hello :: log))
      as (new' & perDomain & Hrun & _).
    rewrite Hrun in Hlog. cbn [snd] in Hlog. apply app_inv_tail in Hlog as ->.
    eexists (_ :: new ++ [hello])%list. split.
    + erewrite bind_returns; [|reflexivity].
      erewrite bind_returns; [|exact Hrun]. cbn. by rewrite <- app_assoc.
    + logs. by rewrite Hl, app_nil_r.
Qed.

(** Route application ends with the literal addresses: after all that
    concerns the domains, and whatever that gave, every literal address
    has its route command run once, in input order, and no lookup is made
    for it. *)
Theorem literals_follow_domains (w : World) (domains ips : list jsstring)
    (iface : jsstring) (log : Log) :
  exists fromDomains fromLiterals,
    snd (Index.addRoutesForDomains w domains iface log)
    = (fromDomains ++ log)%list
    /\ snd (Index.addRoutes w domains ips iface log)
       = (fromLiterals ++ fromDomains ++ log)%list
    /\ commands fromLiterals
       = rev (List.map (fun ip => ($"sudo", hostRoute ip iface)) ips)
    /\ lookups fromLiterals = [].
Proof.
  destruct (addRoutesForDomains_run w domains iface log)
    as (newD & perDomain & HrunD & _).
  destruct (addRoutesForIPs_run w ips iface (newD ++ log)%list)
    as (newI & k & HrunI & Hcmd & _).
  exists newD, newI. split; [by rewrite HrunD|]. split; [|split; [done|]].
  - unfold Index.addRoutes.
    erewrite bind_returns; [|exact HrunD].
    by erewrite bind_returns; [|exact HrunI].
  - assert (Hemits : Emits (fun e => lookups [e] = [])
                       (Index.addRoutesForIPs w ips iface)).
    { unfold Index.addRoutesForIPs, Index.addIPRoute, info, warning.
      emits_with ltac:(by apply addSingleRoute_emits); done. }
    destruct (Hemits (newD ++ log)%list) as (new & Hlog & Hnew).
    rewrite HrunI in Hlog. cbn [snd] in Hlog. apply app_inv_tail in Hlog as ->.
    by apply lookups_none.
Qed.

Lemma trimStart_blank (s : jsstring) :
  Forall (fun c => Js.isWhiteSpace c = true) s -> Js.trimStart s = [].
Proof. induction 1 as [|c s Hc _ IH]; [done|]. cbn. by rewrite Hc. Qed.

Lemma trim_blank (s : jsstring) :
  Forall (fun c => Js.isWhiteSpace c = true) s -> Js.trim s = [].
Proof. intros Hs. unfold Js.trim. by rewrite trimStart_blank. Qed.

Lemma run_continues w log :
  Js.eqb (platform w) $"linux" = true ->
  exists rest,
    snd (Index.run w log)
    = (rest ++ Exec $"ip" [$"link"; $"show"; ifaceOf w] (mkOpts true true)
       :: log)%list.
Proof.
  intros Hlinux. rewrite (run_on_linux w log Hlinux).
  set (P := fun _ : Event => True).
  assert (Hmode : forall b : bool,
    Emits P
      (try_catch
         (if b then
            Index.handleAddRouteMode w
              (parseInputList
                 (Js.or_else (Js.trim (default [] (inputs w !! $"domains"))) []))
              (parseInputList
                 (Js.or_else (Js.trim (default [] (inputs w !! $"ips"))) []))
              (ifaceOf w)
          else
            config <- getInput w $"config" true ;;
            Index.handleSetupMode w config
              (parseInputList
                 (Js.or_else (Js.trim (default [] (inputs w !! $"domains"))) []))
              (parseInputList
                 (Js.or_else (Js.trim (default [] (inputs w !! $"ips"))) []))
              (ifaceOf w)
              (negb (Js.eqb (Js.trim (default [] (inputs w !! $"strip_dns")))
                            $"false")))
         (fun err => setFailed (failedWith err)))).
  { intros b. unfold setFailed.
    emits_with ltac:(first [ by apply handleAddRouteMode_emits
                           | apply handleSetupMode_emits; try done; by intros []
                           | apply getInput_emits ]); done. }
  unfold try_catch at 1, bind at 1. rewrite checkInterfaceExists_run.
  destruct (proc w log $"ip" [$"link"; $"show"; ifaceOf w]) as [c|e].
  - destruct (Hmode (c =? 0)%Z (Exec $"ip" [$"link"; $"show"; ifaceOf w]
                                  (mkOpts true true) :: log))
      as (rest & Hlog & _).
    exists rest. rewrite <- Hlog. unfold try_catch.
    by destruct (_ (Exec _ _ _ :: log)) as [[?|?|] ?].
  - by eexists [_].
Qed.

(** On Linux the first thing an invocation does is to ask whether the
    interface exists, under the name given by the input [iface] without
    the white space around it, or [wg0] when nothing is left of it: when
    that input is missing, empty or blank. *)
Theorem interface_query_comes_first (w : World) (log : Log) :
  Js.eqb (platform w) $"linux" = true ->
  exists rest name,
    snd (Index.run w log)
    = (rest ++ Exec $"ip" [$"link"; $"show"; name] (mkOpts true true)
       :: log)%list
    /\ name = match Js.trim (default [] (inputs w !! $"iface")) with
              | [] => $"wg0"
              | given => given
              end
    /\ (Forall (fun c => Js.isWhiteSpace c = true)
          (default [] (inputs w !! $"iface")) -> name = $"wg0").
Proof.
  intros Hlinux. destruct (run_continues w log Hlinux) as (rest & Hlog).
  exists rest, (ifaceOf w). split; [done|]. split.
  - unfold ifaceOf, Js.or_else. by destruct (Js.trim _).
  - intros Hblank. unfold ifaceOf. by rewrite trim_blank.
Qed.

Lemma interface_query_comes_first_witness :
  (exists rest name,
     snd (Index.run (host [($"iface", $" wg1 ")] allSucceed
                       (noRecords $"A") (noRecords $"Aaaa")) [])
     = (rest ++ Exec $"ip" [$"link"; $"show"; name] (mkOpts true true)
        :: [])%list
     /\ name = $"wg1"
     /\ (Forall (fun c => Js.isWhiteSpace c = true) $" wg1 " -> name = $"wg0"))
  /\ (exists rest name,
        snd (Index.run (host [($"iface", $"   ")] allSucceed
                          (noRecords $"A") (noRecords $"Aaaa")) [])
        = (rest ++ Exec $"ip" [$"link"; $"show"; name] (mkOpts true true)
           :: [])%list
        /\ name = $"wg0"
        /\ (Forall (fun c => Js.isWhiteSpace c = true) $"   " -> name = $"wg0")).
Proof.
  split.
  - exact (interface_query_comes_first
             (host [($"iface", $" wg1 ")] allSucceed
                (noRecords $"A") (noRecords $"Aaaa")) [] eq_refl).
  - exact (interface_query_comes_first
             (host [($"iface", $"   ")] allSucceed
                (noRecords $"A") (noRecords $"Aaaa")) [] eq_refl).
Defined.
(* ===================================================================== *)
(** ** The earlier variants *)
(* ===================================================================== *)

Lemma part001_addSingleRoute_run w ip iface log :
  Part001.addSingleRoute w ip iface log
  = (match proc w log $"sudo" (hostRoute ip iface) with
     | Exited _ => Returns tt
     | SpawnError e => Throws e
     end, Exec $"sudo" (hostRoute ip iface) (mkOpts true false) :: log).
Proof.
  unfold Part001.addSingleRoute, hostRoute, bind.
  destruct (Js.includes Js.colon ip); rewrite exec_exec_run;
    unfold settle_exec; cbn [ignoreReturnCode];
    (destruct (proc w log _ _) as [c|e]; [by rewrite orb_true_r|done]).
Qed.

(** In part_001 a route command that was run counts as a route added,
    whatever its exit code: when no command fails to start, every literal
    address is reported as added, in input order, and there is no
    warning. *)
Theorem part001_ignores_refused_routes (w : World) (ips : list jsstring)
    (iface : jsstring) (log : Log) :
  (forall before args, exists c, proc w before $"sudo" args = Exited c) ->
  exists new,
    Part001.addRoutesForIPs w ips iface log = (Returns tt, new ++ log)%list
    /\ commands new
       = rev (List.map (fun ip => ($"sudo", hostRoute ip iface)) ips)
    /\ infos new = rev (List.map (fun ip => $"Added route for " +++ ip) ips)
    /\ warnings new = [].
Proof.
  intros Hends. unfold Part001.addRoutesForIPs.
  revert log. induction ips as [|ip ips IH]; intros log.
  - by exists [].
  - destruct (Hends log (hostRoute ip iface)) as (c & Hproc).
    set (step := [Info ($"Added route for " +++ ip);
                  Exec $"sudo" (hostRoute ip iface) (mkOpts true false)]).
    destruct (IH (step ++ log)%list) as (new & Hrun & Hcmd & Hinfo & Hwarn).
    exists (new ++ step)%list. split; [|split; [|split]].
    + cbn [for_of]. erewrite bind_returns; [by rewrite Hrun, <- app_assoc|].
      unfold Part001.addIPRoute, try_catch.
      erewrite bind_returns; [reflexivity|].
      by rewrite part001_addSingleRoute_run, Hproc.
    + logs. by rewrite Hcmd.
    + unfold infos in *. rewrite omap_app, Hinfo. cbn [List.map rev]. done.
    + logs. by rewrite Hwarn.
Qed.

Lemma part001_ignores_refused_routes_witness :
  exists new,
    Part001.addRoutesForIPs refusingHost [$"10.0.0.5"; $"2001:db8::1"] $"wg0" []
    = (Returns tt, new ++ [])%list
    /\ commands new
       = rev (List.map (fun ip => ($"sudo", hostRoute ip $"wg0"))
                [$"10.0.0.5"; $"2001:db8::1"])
    /\ infos new
       = rev (List.map (fun ip => $"Added route for " +++ ip)
                [$"10.0.0.5"; $"2001:db8::1"])
    /\ warnings new = [].
Proof.
  apply (part001_ignores_refused_routes refusingHost).
  intros before args. by exists 2%Z.
Defined.

(** The resolver of part_000, when both lookups settle: it returns what
    they answered, the IPv4 addresses first, and never throws; a lookup
    rejected with ENOTFOUND or ENODATA leaves no warning, a lookup
    rejected otherwise leaves one. When a lookup never settles it does
    not return. *)
Theorem part000_silent_on_missing_record (w : World) (domain : jsstring)
    (log : Log) :
  match resolve4 w log domain with
  | Never =>
      Part000.resolveDomainIPs w domain log
      = (Hangs, Resolve IPv4 domain :: log)
  | After ms4 s4 =>
      exists new4,
        WarnsUnlessNoRecord s4 new4
        /\ match resolve6 w (new4 ++ Resolve IPv4 domain :: log) domain with
           | Never =>
               Part000.resolveDomainIPs w domain log
               = (Hangs,
                  Resolve IPv6 domain :: new4 ++ Resolve IPv4 domain :: log)%list
           | After ms6 s6 =>
               exists new6,
                 WarnsUnlessNoRecord s6 new6
                 /\ Part000.resolveDomainIPs w domain log
                    = (Returns (answers s4 ++ answers s6)%list,
                       (new6 ++ Resolve IPv6 domain :: new4
                        ++ Resolve IPv4 domain :: log)%list)
           end
  end.
Proof.
  rewrite part000_unfold.
  pose proof (filtered_lookup_run IPv4 (resolve4 w) $"IPv4" domain [] log)
    as H4.
  destruct (resolve4 w log domain) as [ms4 s4|].
  2: { by erewrite bind_hangs. }
  destruct H4 as (new4 & _ & Hw4 & Hrun4). exists new4. split; [done|].
  erewrite bind_returns; [|exact Hrun4].
  pose proof (filtered_lookup_run IPv6 (resolve6 w) $"IPv6" domain
                ([] ++ answers s4)%list
                (new4 ++ Resolve IPv4 domain :: log)%list) as H6.
  destruct (resolve6 w _ domain) as [ms6 s6|].
  2: { by erewrite bind_hangs. }
  destruct H6 as (new6 & _ & Hw6 & Hrun6). exists new6. split; [done|].
  by erewrite bind_returns; [|exact Hrun6].
Qed.

(** In part_001 an address of a domain is kept whenever its route command
    could be started, whatever the exit code: when no command fails to
    start, all the addresses to which a domain resolved are kept, without
    a warning. *)
Theorem part001_keeps_refused_addresses (w : World)
    (domain iface : jsstring) (resolved allIPs : list jsstring) (log : Log) :
  (forall before args, exists c, proc w before $"sudo" args = Exited c) ->
  exists new,
    for_of resolved (Part001.addDomainRoute w domain iface) allIPs log
    = (Returns (allIPs ++ resolved), new ++ log)%list
    /\ commands new
       = rev (List.map (fun ip => ($"sudo", hostRoute ip iface)) resolved)
    /\ warnings new = [].
Proof.
  intros Hends.
  revert allIPs log. induction resolved as [|ip ips IH]; intros allIPs log.
  - exists []. by rewrite app_nil_r.
  - set (hello := Info ($"Adding route for " +++ domain +++ $" (" +++ ip
                        +++ $") via " +++ iface)).
    destruct (Hends (hello :: log) (hostRoute ip iface)) as (c & Hproc).
    set (step := [Exec $"sudo" (hostRoute ip iface) (mkOpts true false); hello]).
    destruct (IH (allIPs ++ [ip])%list (step ++ log)%list)
      as (new & Hrun & Hcmd & Hwarn).
    exists (new ++ step)%list. split; [|split].
    + cbn [for_of]. erewrite bind_returns.
      * rewrite Hrun, <- !app_assoc. reflexivity.
      * unfold Part001.addDomainRoute, try_catch.
        erewrite bind_returns; [|reflexivity].
        erewrite bind_returns; [reflexivity|].
        rewrite part001_addSingleRoute_run. fold hello. by rewrite Hproc.
    + logs. by rewrite Hcmd.
    + logs. by rewrite Hwarn.
Qed.

Lemma part001_keeps_refused_addresses_witness :
  exists new,
    for_of [$"93.184.216.34"]
      (Part001.addDomainRoute refusingHost $"example.com" $"wg0") [] []
    = (Returns ([] ++ [$"93.184.216.34"]), new ++ [])%list
    /\ commands new
       = rev (List.map (fun ip => ($"sudo", hostRoute ip $"wg0"))
                [$"93.184.216.34"])
    /\ warnings new = [].
Proof.
  apply (part001_keeps_refused_addresses refusingHost).
  intros before args. by exists 2%Z.
Defined.
